(** * Navigation links of the documentation theme (NavLinks.vue)

    A shallow embedding of the computed properties of
    [.vuepress/theme/NavLinks.vue]: [userNav], [nav], [userLinks],
    [repoLink] and [repoLabel], together with the parts of JavaScript
    they rely on (truthiness of optional strings, [String.prototype.replace]
    with a string pattern, the three regular expressions of the file,
    property lookup in an object, array allocation). *)

From Stdlib Require Import String Ascii List Bool Arith Lia.
Set Warnings "-register-all".
Import ListNotations.
Open Scope list_scope.
Open Scope string_scope.

(** ** Completions: a call returns a value or throws *)

Inductive JsError : Type :=
| TypeError (msg : string).

Inductive completion (A : Type) : Type :=
| Normal (a : A)
| Throw (e : JsError).
Arguments Normal {A} a.
Arguments Throw {A} e.

Definition bind {A B} (c : completion A) (k : A -> completion B) : completion B :=
  match c with
  | Normal a => k a
  | Throw e => Throw e
  end.

Notation "x <- c ;; k" := (bind c (fun x => k))
  (at level 61, c at next level, right associativity).

(** [Array.prototype.map] with a callback that may throw. *)
Fixpoint mapM {A B} (f : A -> completion B) (l : list A) : completion (list B) :=
  match l with
  | [] => Normal []
  | x :: xs =>
      y <- f x ;;
      ys <- mapM f xs ;;
      Normal (y :: ys)
  end.

Definition returns {A} (c : completion A) : Prop := exists a, c = Normal a.

(** ** JavaScript strings *)

Module JsString.

(** Truthiness of an optional string: [undefined] and [""] are falsy. *)
Definition truthy (v : option string) : bool :=
  match v with
  | None => false
  | Some s => negb (s =? "")
  end.

(** [a || b] on optional strings. *)
Definition or (a b : option string) : option string :=
  if truthy a then a else b.

Fixpoint drop (n : nat) (s : string) : string :=
  match n, s with
  | O, _ => s
  | S _, EmptyString => EmptyString
  | S n', String _ s' => drop n' s'
  end.

Fixpoint take (n : nat) (s : string) : string :=
  match n, s with
  | O, _ => EmptyString
  | S _, EmptyString => EmptyString
  | S n', String c s' => String c (take n' s')
  end.

Fixpoint startsWith (s pat : string) {struct pat} : bool :=
  match pat, s with
  | EmptyString, _ => true
  | String _ _, EmptyString => false
  | String p pat', String c s' => Ascii.eqb c p && startsWith s' pat'
  end.

(** [s.indexOf(pat)]: position of the first occurrence, if any. *)
Fixpoint indexOf (s pat : string) : option nat :=
  if startsWith s pat then Some 0
  else match s with
       | EmptyString => None
       | String _ s' => option_map S (indexOf s' pat)
       end.

Definition dollar : ascii := "$"%char.

(** GetSubstitution of ECMA-262 for a string pattern: there are no
    captures, so only [$$], [$&], [$`] and [$'] are special and every
    other [$] stands for itself. *)
Fixpoint GetSubstitution (matched before after template : string) : string :=
  match template with
  | EmptyString => EmptyString
  | String c rest =>
      if Ascii.eqb c dollar then
        match rest with
        | String d rest' =>
            if Ascii.eqb d dollar then
              String dollar (GetSubstitution matched before after rest')
            else if Ascii.eqb d "&"%char then
              matched ++ GetSubstitution matched before after rest'
            else if Ascii.eqb d "`"%char then
              before ++ GetSubstitution matched before after rest'
            else if Ascii.eqb d "'"%char then
              after ++ GetSubstitution matched before after rest'
            else String c (GetSubstitution matched before after rest)
        | EmptyString => String c EmptyString
        end
      else String c (GetSubstitution matched before after rest)
  end.

(** [s.replace(pat, repl)] with a string pattern: the first occurrence
    only, the replacement text expanded by [GetSubstitution]. *)
Definition replace (s pat repl : string) : string :=
  match indexOf s pat with
  | None => s
  | Some i =>
      let before := take i s in
      let after := drop (i + String.length pat) s in
      before ++ GetSubstitution pat before after repl ++ after
  end.

(** The text of [s] with its first occurrence of [pat] replaced by
    [repl] taken literally. *)
Definition replaceLiteral (s pat repl : string) : string :=
  match indexOf s pat with
  | None => s
  | Some i => take i s ++ repl ++ drop (i + String.length pat) s
  end.

Fixpoint hasDollar (s : string) : bool :=
  match s with
  | EmptyString => false
  | String c s' => Ascii.eqb c dollar || hasDollar s'
  end.

(** Canonicalize of ECMA-262 for an ignore-case, non-unicode pattern:
    a character is compared through its upper case; a character outside
    ASCII never becomes an ASCII one. *)
Definition canonicalize (c : ascii) : ascii :=
  let n := nat_of_ascii c in
  if ((97 <=? n) && (n <=? 122))%nat then ascii_of_nat (n - 32) else c.

Fixpoint startsWithI (s pat : string) {struct pat} : bool :=
  match pat, s with
  | EmptyString, _ => true
  | String _ _, EmptyString => false
  | String p pat', String c s' =>
      Ascii.eqb (canonicalize c) (canonicalize p) && startsWithI s' pat'
  end.

(** [new RegExp(word, 'i').test(s)] for a [word] made of letters only:
    [word] occurs somewhere in [s], case ignored. *)
Fixpoint testI (word s : string) : bool :=
  startsWithI s word ||
  match s with
  | EmptyString => false
  | String _ s' => testI word s'
  end.

Fixpoint takeWhileNot (stop : ascii) (s : string) : string :=
  match s with
  | EmptyString => EmptyString
  | String c s' => if Ascii.eqb c stop then EmptyString else String c (takeWhileNot stop s')
  end.

(** [/^https?:/.test(s)] *)
Definition testHttpScheme (s : string) : bool :=
  startsWith s "http:" || startsWith s "https:".

(** [s.match(/^https?:\/\/[^/]+/)]: [None] is JavaScript's [null],
    [Some o] is a match whose element 0 is [o]. *)
Definition matchOrigin (s : string) : option string :=
  let scheme :=
    if startsWith s "https://" then Some "https://"
    else if startsWith s "http://" then Some "http://"
    else None in
  match scheme with
  | None => None
  | Some sch =>
      let host := takeWhileNot "/"%char (drop (String.length sch) s) in
      if host =? "" then None else Some (sch ++ host)
  end.

End JsString.

(** ** JavaScript objects used as maps *)

Module Obj.

(** The own properties of an object, in the order [Object.keys] lists
    them. *)
Definition t (A : Type) : Type := list (string * A).

Definition keys {A} (o : t A) : list string := map fst o.

(** [o[k]]: [None] is [undefined]. *)
Fixpoint get {A} (o : t A) (k : string) : option A :=
  match o with
  | [] => None
  | (k', v) :: o' => if k' =? k then Some v else get o' k
  end.

(** An object holds a key once. *)
Definition wf {A} (o : t A) : Prop := NoDup (keys o).

End Obj.

(** ** The data the component reads *)

(** A navigation item: the records of the [nav] configuration, the items
    the language dropdown is made of, and what [resolveNavLinkItem] hands
    back are all objects of this shape; an absent field is [None]. *)
Inductive NavItem : Type := mkNavItem {
  text : option string;
  link : option string;
  type : option string;
  items : option (list NavItem)
}.

(** [this.$site.locales[path]] *)
Record Locale : Type := mkLocale {
  lang : option string
}.

(** [this.$site.themeConfig.locales[path]], and [this.$themeLocaleConfig] *)
Record ThemeLocale : Type := mkThemeLocale {
  label : option string;
  selectText : option string;
  localeNav : option (list NavItem)
}.

(** [this.$site.themeConfig] *)
Record ThemeConfig : Type := mkThemeConfig {
  siteNav : option (list NavItem);
  themeLocales : option (Obj.t ThemeLocale);
  repo : option string;
  explicitRepoLabel : option string
}.

(** [this.$router.options.routes[i]] *)
Record Route : Type := mkRoute {
  path : string
}.

(** What the computed properties read from [this]. *)
Record Component : Type := mkComponent {
  locales : option (Obj.t Locale);       (* this.$site.locales *)
  themeConfig : ThemeConfig;             (* this.$site.themeConfig *)
  themeLocaleConfig : ThemeLocale;       (* this.$themeLocaleConfig *)
  currentLang : string;                  (* this.$lang *)
  localePath : string;                   (* this.$localeConfig.path *)
  pagePath : string;                     (* this.$page.path *)
  routes : list Route                    (* this.$router.options.routes *)
}.

(** The kinds of entry of the specification. *)
Inductive Kind : Type := plain_link | dropdown.

(** Modelled from the spec: the kind that [resolveNavLinkItem] of [./util]
    (not among the sources) gives an entry: "if it carries items, treat as
    dropdown", any other record is a plain link. *)
Definition kindOf (e : NavItem) : Kind :=
  match items e with
  | Some _ => dropdown
  | None => plain_link
  end.

(** ** The computed properties *)

(** [a || b] where [a] is an array or [undefined]: an array is truthy,
    the empty one too. *)
Definition orArray {A} (a : option (list A)) (b : list A) : list A :=
  match a with
  | Some l => l
  | None => b
  end.

(** [locale.lang === this.$lang] *)
Definition strictEq (a : option string) (b : string) : bool :=
  match a with
  | Some s => s =? b
  | None => false
  end.

Definition userNav (this : Component) : list NavItem :=
  orArray (localeNav (themeLocaleConfig this))
          (orArray (siteNav (themeConfig this)) []).

(** The [link] computed in the callback of [nav] for the locale at
    [localeKey]. *)
Definition localeLink (this : Component) (localeKey : string) (locale : Locale) : string :=
  let currentLink := pagePath this in
  if strictEq (lang locale) (currentLang this) then currentLink
  else
    let link := JsString.replace currentLink (localePath this) localeKey in
    if negb (existsb (fun route => path route =? link) (routes this))
    then localeKey
    else link.

(** [themeLocales[path] && themeLocales[path].label || locale.lang] *)
Definition localeText (themeLocales : Obj.t ThemeLocale) (localeKey : string)
    (locale : Locale) : option string :=
  JsString.or
    (match Obj.get themeLocales localeKey with
     | Some tl => label tl
     | None => None
     end)
    (lang locale).

(** The callback given to [Object.keys(locales).map]. *)
Definition localeItem (this : Component) (locales : Obj.t Locale)
    (themeLocales : Obj.t ThemeLocale) (localeKey : string) : completion NavItem :=
  match Obj.get locales localeKey with
  | None => Throw (TypeError "Cannot read property 'lang' of undefined")
  | Some locale =>
      Normal {| text := localeText themeLocales localeKey locale;
                link := Some (localeLink this localeKey locale);
                type := None;
                items := None |}
  end.

Definition languageDropdown (this : Component) (locales : Obj.t Locale)
    : completion NavItem :=
  let themeLocales :=
    match themeLocales (themeConfig this) with
    | Some o => o
    | None => []
    end in
  its <- mapM (localeItem this locales themeLocales) (Obj.keys locales) ;;
  Normal {| text := JsString.or (selectText (themeLocaleConfig this)) (Some "Languages");
            link := None;
            type := None;
            items := Some its |}.

Definition nav (this : Component) : completion (list NavItem) :=
  match locales this with
  | Some locales =>
      if (1 <? List.length (Obj.keys locales))%nat then
        dd <- languageDropdown this locales ;;
        Normal (userNav this ++ [dd])%list
      else Normal (userNav this)
  | None => Normal (userNav this)
  end.

Section UserLinks.

(** [resolveNavLinkItem] is imported from [./util]. *)
Variable resolveNavLinkItem : NavItem -> NavItem.

(** [Object.assign(target, { items })] *)
Definition assignItems (target : NavItem) (its : list NavItem) : NavItem :=
  {| text := text target; link := link target; type := type target;
     items := Some its |}.

Definition resolveLink (link : NavItem) : NavItem :=
  assignItems (resolveNavLinkItem link)
              (map resolveNavLinkItem (orArray (items link) [])).

Definition userLinks (this : Component) : completion (list NavItem) :=
  l <- nav this ;;
  Normal (map resolveLink l).

End UserLinks.

Definition repoLink (this : Component) : option string :=
  let repo := repo (themeConfig this) in
  match repo with
  | Some r =>
      if JsString.truthy repo then
        if JsString.testHttpScheme r then Some r
        else Some ("https://github.com/" ++ r)
      else None
  | None => None
  end.

Definition platforms : list string := ["GitHub"; "GitLab"; "Bitbucket"].

(** The [for] loop of [repoLabel]: the first platform whose name occurs in
    [repoHost], case ignored. *)
Fixpoint firstPlatform (platforms : list string) (repoHost : string) : option string :=
  match platforms with
  | [] => None
  | platform :: rest =>
      if JsString.testI platform repoHost then Some platform
      else firstPlatform rest repoHost
  end.

(** The body of [repoLabel], given the value of [this.repoLink]. *)
Definition repoLabelOf (repoLink explicitLabel : option string)
    : completion (option string) :=
  match repoLink with
  | None => Normal None
  | Some l =>
      if negb (JsString.truthy repoLink) then Normal None
      else if JsString.truthy explicitLabel then Normal explicitLabel
      else
        match JsString.matchOrigin l with
        | None => Throw (TypeError "Cannot read property '0' of null")
        | Some repoHost =>
            match firstPlatform platforms repoHost with
            | Some platform => Normal (Some platform)
            | None => Normal (Some "Source")
            end
        end
  end.

Definition repoLabel (this : Component) : completion (option string) :=
  repoLabelOf (repoLink this) (explicitRepoLabel (themeConfig this)).

(** ** The template

    What the template of the component puts on the page: nothing, or the
    [nav] element with one [div.nav-item] a user link, keyed by the link,
    and the anchor of the repository when there is one. *)

Inductive NavChild : Type :=
| DropdownLink (item : NavItem)
| NavLink (item : NavItem).

Record NavElement : Type := mkNavElement {
  navItems : list (option string * NavChild);
  repoAnchor : option string
}.

(** [<DropdownLink v-if="item.type === 'links'"/> <NavLink v-else/>] *)
Definition navChild (item : NavItem) : NavChild :=
  if strictEq (type item) "links" then DropdownLink item else NavLink item.

(** [<nav v-if="userLinks.length || repoLink">]; the template reads
    [userLinks] and [repoLink] only. *)
Definition template (resolveNavLinkItem : NavItem -> NavItem) (this : Component)
    : completion (option NavElement) :=
  links <- userLinks resolveNavLinkItem this ;;
  if negb (List.length links =? 0)%nat || JsString.truthy (repoLink this)
  then Normal (Some {| navItems := map (fun item => (link item, navChild item)) links;
                       repoAnchor := if JsString.truthy (repoLink this)
                                     then repoLink this else None |})
  else Normal None.

(** ** Arrays and objects in a store

    [nav] is written once more over a store of cells, to follow which
    arrays it allocates and which it only reads: the spread
    [[...this.userNav, languageDropdown]] builds a new array, while
    [return this.userNav] hands back the reference it was given. *)

Module Store.

Definition loc : Type := nat.

Inductive value : Type :=
| VStr (s : string)
| VRef (l : loc).

Inductive cell : Type :=
| Arr (elems : list value)
| Item (text link type : option string) (items : option loc).

(** Cell [l] of the store is its [l]-th element; a new cell goes to the
    end, so a location is allocated when it is below the length. *)
Definition t : Type := list cell.

Definition read (h : t) (l : loc) : option cell := nth_error h l.

Definition alloc (h : t) (c : cell) : t * loc := ((h ++ [c])%list, List.length h).

Definition fresh (h : t) (l : loc) : Prop := read h l = None.

(** An object literal [{ text, link }] in the store. *)
Definition cellOf (it : NavItem) : cell :=
  Item (text it) (link it) (type it) None.

(** [keys.map(callback)], the callback allocating one object a key. *)
Fixpoint mapAlloc (f : string -> completion NavItem) (keys : list string) (h : t)
    : completion (t * list loc) :=
  match keys with
  | [] => Normal (h, [])
  | k :: ks =>
      it <- f k ;;
      let (h1, l) := alloc h (cellOf it) in
      r <- mapAlloc f ks h1 ;;
      Normal (fst r, l :: snd r)
  end.

(** [nav], with [this.userNav] the array at [base]. A cell is allocated
    once its contents are known; cells are never written again. *)
Definition nav (this : Component) (base : loc) (h : t) : completion (t * loc) :=
  match locales this with
  | Some locales =>
      if (1 <? List.length (Obj.keys locales))%nat then
        let themeLocales :=
          match themeLocales (themeConfig this) with
          | Some o => o
          | None => []
          end in
        let (h1, keys) := alloc h (Arr (map VStr (Obj.keys locales))) in
        r <- mapAlloc (localeItem this locales themeLocales) (Obj.keys locales) h1 ;;
        let (h2, its) := alloc (fst r) (Arr (map VRef (snd r))) in
        let (h3, dd) :=
          alloc h2 (Item (JsString.or (selectText (themeLocaleConfig this))
                                      (Some "Languages"))
                         None None (Some its)) in
        match read h3 base with
        | Some (Arr elems) => Normal (alloc h3 (Arr (elems ++ [VRef dd])%list))
        | _ => Throw (TypeError "this.userNav is not iterable")
        end
      else Normal (h, base)
  | None => Normal (h, base)
  end.

End Store.

(** Number of configured locales: [Object.keys(locales).length], and 0
    when [locales] is absent. *)
Definition localeCount (this : Component) : nat :=
  match locales this with
  | Some ls => List.length (Obj.keys ls)
  | None => 0
  end.

(** ** Notions the statements use *)

Definition beginsWith (pat s : string) : Prop := exists rest, s = pat ++ rest.

(** The text of [s] in upper case. *)
Fixpoint upper (s : string) : string :=
  match s with
  | EmptyString => EmptyString
  | String c s' => String (JsString.canonicalize c) (upper s')
  end.

(** [word] occurs in [s], case ignored. *)
Definition occursI (word s : string) : Prop :=
  exists pre mid post, s = pre ++ mid ++ post /\ upper mid = upper word.

(** No character of [s] is [c]. *)
Inductive lacks (c : ascii) : string -> Prop :=
| lacks_nil : lacks c EmptyString
| lacks_cons d s : d <> c -> lacks c s -> lacks c (String d s).

(** [o] is the text of the link [l] up to its first slash after the
    scheme: [http://] or [https://] and all that stands before the next
    slash or the end of [l]. It is the origin of [l] when nothing but the
    host stands there; see [urlOrigin]. *)
Definition originOf (l o : string) : Prop :=
  exists scheme host rest,
    (scheme = "http://" \/ scheme = "https://") /\
    host <> "" /\ lacks "/" host /\
    o = scheme ++ host /\ l = o ++ rest /\
    (rest = "" \/ beginsWith "/" rest).

(** Every character of [s] passes the test [p]. *)
Fixpoint allChars (p : ascii -> bool) (s : string) : bool :=
  match s with
  | EmptyString => true
  | String c s' => p c && allChars p s'
  end.

Definition digitChar (c : ascii) : bool :=
  let n := nat_of_ascii c in
  ((48 <=? n) && (n <=? 57))%nat.

Definition upperChar (c : ascii) : bool :=
  let n := nat_of_ascii c in
  ((65 <=? n) && (n <=? 90))%nat.

(** A character of a host name: a letter, a digit, a hyphen or a dot. *)
Definition hostChar (c : ascii) : bool :=
  let n := nat_of_ascii c in
  (digitChar c || upperChar c || ((97 <=? n) && (n <=? 122)) || (n =? 45) || (n =? 46))%nat.

(** Nothing, or a colon and the digits of a port. *)
Definition portText (s : string) : Prop :=
  s = "" \/ exists digits, s = ":" ++ digits /\ allChars digitChar digits = true.

(** [o] is the scheme and host of the URL [l]: [l] is [http://] or
    [https://], a host name, a port if any, and then nothing or a path
    that begins with a slash. A link with user info, or with a query or a
    fragment right after the host, is not of this form. *)
Definition urlOrigin (l o : string) : Prop :=
  exists scheme host port rest,
    (scheme = "http://" \/ scheme = "https://") /\
    host <> "" /\ allChars hostChar host = true /\
    portText port /\
    o = scheme ++ host /\ l = o ++ port ++ rest /\
    (rest = "" \/ beginsWith "/" rest).

(** [pat] occurs in [s]. *)
Definition occurs (pat s : string) : Prop :=
  exists pre post, s = pre ++ pat ++ post.

(** The names [repoLabel] picks from when no label is configured. *)
Definition derivedLabels : list string := ["GitHub"; "GitLab"; "Bitbucket"; "Source"].

(** ** Sample configurations *)

Module Samples.

Definition noThemeLocale : ThemeLocale :=
  {| label := None; selectText := None; localeNav := None |}.

Definition plainItem (t l : string) : NavItem :=
  {| text := Some t; link := Some l; type := None; items := None |}.

Definition siteLinks : list NavItem :=
  [plainItem "Guide" "/guide/"; plainItem "Hub" "https://hub.asyncy.com"].

Definition theme (r l : option string) : ThemeConfig :=
  {| siteNav := Some siteLinks; themeLocales := None; repo := r;
     explicitRepoLabel := l |}.

(** The scenario of the specification: English at [/], French at
    [/fr/], the page [/guide/intro.html] of the English site. *)
Definition twoLocales : Obj.t Locale :=
  [("/", {| lang := Some "en-US" |}); ("/fr/", {| lang := Some "fr-FR" |})].

Definition scenario (known : list string) (sel : option string) : Component :=
  {| locales := Some twoLocales;
     themeConfig := theme (Some "asyncy/docs") None;
     themeLocaleConfig := {| label := None; selectText := sel; localeNav := None |};
     currentLang := "en-US";
     localePath := "/";
     pagePath := "/guide/intro.html";
     routes := map mkRoute known |}.

Definition oneLocale : Component :=
  {| locales := Some [("/", {| lang := Some "en-US" |})];
     themeConfig := theme None None;
     themeLocaleConfig := noThemeLocale;
     currentLang := "en-US";
     localePath := "/";
     pagePath := "/guide/intro.html";
     routes := [] |}.

Definition withRepo (r l : option string) : Component :=
  {| locales := None;
     themeConfig := theme r l;
     themeLocaleConfig := noThemeLocale;
     currentLang := "en-US";
     localePath := "/";
     pagePath := "/";
     routes := [] |}.

(** A second locale kept in a directory whose name holds dollar signs. *)
Definition dollarLocales : Obj.t Locale :=
  [("/", {| lang := Some "en-US" |}); ("/$$/", {| lang := Some "fr-FR" |})].

Definition dollarSite : Component :=
  {| locales := Some dollarLocales;
     themeConfig := theme None None;
     themeLocaleConfig := noThemeLocale;
     currentLang := "en-US";
     localePath := "/";
     pagePath := "/guide.html";
     routes := map mkRoute ["/"; "/guide.html"; "/$$/"; "/$$/guide.html"] |}.

(** A locale whose own nav is the empty list, on a site with links. *)
Definition emptyLocaleNav : Component :=
  {| locales := None;
     themeConfig := theme None None;
     themeLocaleConfig := {| label := None; selectText := None; localeNav := Some [] |};
     currentLang := "en-US";
     localePath := "/";
     pagePath := "/";
     routes := [] |}.

(** A [repo] written with one slash after the scheme. *)
Definition oneSlashRepo : Component :=
  withRepo (Some "https:/github.com/acme/widget") None.

Definition french : Locale := {| lang := Some "fr-FR" |}.

(** A store that holds one link and, at location 1, the array of base
    links. *)
Definition smallStore : Store.t :=
  [Store.Item (Some "Guide") (Some "/guide/") None None;
   Store.Arr [Store.VRef 0]].

(** The French page of the scenario, reached from the English one. *)
Definition scenarioFrench (known : list string) : Component :=
  {| locales := Some twoLocales;
     themeConfig := theme (Some "asyncy/docs") None;
     themeLocaleConfig := noThemeLocale;
     currentLang := "fr-FR";
     localePath := "/fr/";
     pagePath := "/fr/guide/intro.html";
     routes := map mkRoute known |}.

Definition english : Locale := {| lang := Some "en-US" |}.

(** A page that is under no locale prefix of a site whose locales are
    [/en/] and [/fr/]. *)
Definition outsidePage : Component :=
  {| locales := Some [("/en/", english); ("/fr/", french)];
     themeConfig := theme None None;
     themeLocaleConfig := noThemeLocale;
     currentLang := "en-US";
     localePath := "/en/";
     pagePath := "/about.html";
     routes := map mkRoute ["/about.html"; "/en/"; "/fr/"] |}.

(** No links, no locales, no repository. *)
Definition bare : Component :=
  {| locales := None;
     themeConfig := {| siteNav := None; themeLocales := None; repo := None;
                       explicitRepoLabel := None |};
     themeLocaleConfig := noThemeLocale;
     currentLang := "en-US";
     localePath := "/";
     pagePath := "/";
     routes := [] |}.

End Samples.

(** * Properties *)

Lemma mapM_Forall2 {A B} (f : A -> completion B) (l : list A) :
  (forall x, In x l -> returns (f x)) ->
  exists ys, mapM f l = Normal ys /\ Forall2 (fun x y => f x = Normal y) l ys.
Proof.
  induction l as [|x xs IH]; intros Hret.
  - exists []. split; [reflexivity | constructor].
  - destruct (Hret x (or_introl eq_refl)) as [y Hy].
    destruct IH as [ys [Hys HF]].
    { intros z Hz. apply Hret. now right. }
    exists (y :: ys). split.
    + simpl. rewrite Hy. simpl. rewrite Hys. reflexivity.
    + constructor; assumption.
Qed.

Lemma Obj_get_keys {A} (o : Obj.t A) (k : string) :
  In k (Obj.keys o) -> exists v, Obj.get o k = Some v.
Proof.
  induction o as [|[k' v] o IH]; simpl; intros Hin.
  - contradiction.
  - destruct (String.eqb_spec k' k) as [->|Hne].
    + now exists v.
    + destruct Hin as [Heq|Hin]; [contradiction | now apply IH].
Qed.

(** In an object, which holds a key once, a property is read back under
    its key. *)
Lemma Obj_get_wf {A} (o : Obj.t A) (k : string) (v : A) :
  Obj.wf o -> In (k, v) o -> Obj.get o k = Some v.
Proof.
  unfold Obj.wf, Obj.keys.
  induction o as [|[k' v'] o IH]; simpl; intros Hnd Hin; [contradiction|].
  inversion Hnd as [|x xs Hnotin Hnd']. subst.
  destruct Hin as [[= -> ->] | Hin].
  - now rewrite String.eqb_refl.
  - destruct (String.eqb_spec k' k) as [->|Hne]; [|now apply IH].
    exfalso. apply Hnotin. apply in_map_iff. now exists (k, v).
Qed.

Lemma localeItem_returns this ls tls k :
  In k (Obj.keys ls) -> returns (localeItem this ls tls k).
Proof.
  intros Hin. destruct (Obj_get_keys ls k Hin) as [v Hv].
  unfold localeItem. rewrite Hv. eexists. reflexivity.
Qed.

(** The language dropdown is always built: every key that [Object.keys]
    lists is a property of [locales]. *)
Lemma languageDropdown_returns this ls :
  exists its,
    languageDropdown this ls =
      Normal {| text := JsString.or (selectText (themeLocaleConfig this)) (Some "Languages");
                link := None; type := None; items := Some its |} /\
    Forall2 (fun k it =>
               localeItem this ls
                 (match themeLocales (themeConfig this) with Some o => o | None => [] end) k
               = Normal it)
            (Obj.keys ls) its.
Proof.
  unfold languageDropdown.
  destruct (mapM_Forall2
              (localeItem this ls
                 (match themeLocales (themeConfig this) with Some o => o | None => [] end))
              (Obj.keys ls)) as [its [Hm HF]].
  { intros k Hk. now apply localeItem_returns. }
  exists its. rewrite Hm. split; [reflexivity | exact HF].
Qed.

(** ** The base list: [userNav] *)

(** C10: the base navigation list comes from one source, by priority: the
    per-locale nav when it is defined (the empty one too), else the
    site-wide nav, else the empty list; the two sources are never
    merged. *)
Theorem userNav_single_source (this : Component) :
  userNav this =
    match localeNav (themeLocaleConfig this), siteNav (themeConfig this) with
    | Some perLocale, _ => perLocale
    | None, Some siteWide => siteWide
    | None, None => []
    end
  /\ (localeNav (themeLocaleConfig this) = Some [] -> userNav this = []).
Proof.
  unfold userNav, orArray.
  destruct (localeNav (themeLocaleConfig this)) as [l|];
    destruct (siteNav (themeConfig this)) as [s|]; split; try reflexivity;
    intros H; try discriminate; now inversion H.
Qed.

Lemma userNav_single_source_witness :
  localeNav (themeLocaleConfig Samples.emptyLocaleNav) = Some [] /\
  userNav Samples.emptyLocaleNav = [].
Proof.
  split; [reflexivity |].
  apply (proj2 (userNav_single_source Samples.emptyLocaleNav)). reflexivity.
Defined.

(** ** The locale switcher: [nav] *)

Lemma nav_multi this ls :
  locales this = Some ls ->
  1 < List.length (Obj.keys ls) ->
  exists its,
    nav this =
      Normal (userNav this ++
              [{| text := JsString.or (selectText (themeLocaleConfig this)) (Some "Languages");
                  link := None; type := None; items := Some its |}])%list /\
    Forall2 (fun k it =>
               localeItem this ls
                 (match themeLocales (themeConfig this) with Some o => o | None => [] end) k
               = Normal it)
            (Obj.keys ls) its.
Proof.
  intros Hls Hlen. unfold nav. rewrite Hls.
  apply Nat.ltb_lt in Hlen. rewrite Hlen.
  destruct (languageDropdown_returns this ls) as [its [Hdd HF]].
  exists its. rewrite Hdd. split; [reflexivity | exact HF].
Qed.

Lemma nav_single this : localeCount this <= 1 -> nav this = Normal (userNav this).
Proof.
  unfold localeCount, nav. destruct (locales this) as [ls|]; [|reflexivity].
  intros Hle. apply Nat.ltb_ge in Hle. now rewrite Hle.
Qed.

(** [nav] never throws. *)
Lemma nav_returns this : returns (nav this).
Proof.
  destruct (le_lt_dec (localeCount this) 1) as [Hle|Hlt].
  - exists (userNav this). now apply nav_single.
  - unfold localeCount in Hlt. destruct (locales this) as [ls|] eqn:Hls; [|lia].
    destruct (nav_multi this ls Hls Hlt) as [its [Hnav _]].
    eexists. exact Hnav.
Qed.

(** C4: with no locale or a single one, [nav] is the identity on the base
    list: it returns [userNav] unchanged. *)
Theorem nav_identity_single_locale (this : Component) :
  localeCount this <= 1 -> nav this = Normal (userNav this).
Proof. apply nav_single. Qed.

Lemma nav_identity_single_locale_witness :
  localeCount Samples.oneLocale <= 1 /\
  nav Samples.oneLocale = Normal Samples.siteLinks.
Proof.
  split; [cbv; lia |].
  apply (nav_identity_single_locale Samples.oneLocale). cbv. lia.
Defined.

(** C3: with more than one locale, the result is the base list, in its
    order, followed by one entry; that last entry is a dropdown: it has no
    link and carries one item a locale. *)
Theorem nav_appends_dropdown (this : Component) :
  1 < localeCount this ->
  exists out dd its,
    nav this = Normal out /\
    List.length out = List.length (userNav this) + 1 /\
    firstn (List.length (userNav this)) out = userNav this /\
    out = (userNav this ++ [dd])%list /\
    nth_error out (List.length out - 1) = Some dd /\
    kindOf dd = dropdown /\
    link dd = None /\
    items dd = Some its /\
    List.length its = localeCount this /\
    its <> [].
Proof.
  unfold localeCount. intros Hlt.
  destruct (locales this) as [ls|] eqn:Hls; [|lia].
  destruct (nav_multi this ls Hls Hlt) as [its [Hnav HF]].
  pose proof (Forall2_length HF) as Hlen.
  eexists. eexists. exists its. split; [exact Hnav|].
  repeat split.
  - rewrite length_app. reflexivity.
  - rewrite firstn_app, Nat.sub_diag, firstn_all. simpl. apply app_nil_r.
  - rewrite length_app, nth_error_app2 by (simpl; lia).
    simpl. replace (_ + 1 - 1 - _) with 0 by lia. reflexivity.
  - now rewrite <- Hlen.
  - intros ->. simpl in Hlen. lia.
Qed.

Lemma nav_appends_dropdown_witness :
  1 < localeCount (Samples.scenario [] None) /\
  exists out dd its,
    nav (Samples.scenario [] None) = Normal out /\
    List.length out = List.length (userNav (Samples.scenario [] None)) + 1 /\
    firstn (List.length (userNav (Samples.scenario [] None))) out
      = userNav (Samples.scenario [] None) /\
    out = (userNav (Samples.scenario [] None) ++ [dd])%list /\
    nth_error out (List.length out - 1) = Some dd /\
    kindOf dd = dropdown /\
    link dd = None /\
    items dd = Some its /\
    List.length its = localeCount (Samples.scenario [] None) /\
    its <> [].
Proof.
  split; [cbv; lia |].
  apply (nav_appends_dropdown (Samples.scenario [] None)). cbv. lia.
Defined.

(** The text of the dropdown is [selectText || 'Languages']: an empty
    [selectText] is falsy and gives way to the default. *)
Lemma or_default (v : option string) (d : string) :
  JsString.or v (Some d) =
    Some (match v with
          | Some s => if s =? "" then d else s
          | None => d
          end).
Proof.
  unfold JsString.or, JsString.truthy.
  destruct v as [s|]; [|reflexivity].
  destruct (s =? ""); reflexivity.
Qed.

(** C7, as the code has it: the text of the language dropdown is the
    configured [selectText] when that is present and not empty, and
    ["Languages"] otherwise. *)
Theorem dropdown_text_or_default (this : Component) :
  1 < localeCount this ->
  exists dd,
    nav this = Normal (userNav this ++ [dd])%list /\
    text dd = Some (match selectText (themeLocaleConfig this) with
                    | Some s => if s =? "" then "Languages" else s
                    | None => "Languages"
                    end).
Proof.
  unfold localeCount. intros Hlt.
  destruct (locales this) as [ls|] eqn:Hls; [|lia].
  destruct (nav_multi this ls Hls Hlt) as [its [Hnav _]].
  eexists. split; [exact Hnav|]. simpl. apply or_default.
Qed.

Lemma dropdown_text_or_default_witness :
  1 < localeCount (Samples.scenario [] (Some "Translations")) /\
  exists dd,
    nav (Samples.scenario [] (Some "Translations"))
      = Normal (userNav (Samples.scenario [] (Some "Translations")) ++ [dd])%list /\
    text dd = Some "Translations".
Proof.
  split; [cbv; lia |].
  apply (dropdown_text_or_default (Samples.scenario [] (Some "Translations"))).
  cbv. lia.
Defined.

Lemma nav_empty_selectText :
  exists dd,
    nav (Samples.scenario [] (Some "")) =
      Normal (userNav (Samples.scenario [] (Some "")) ++ [dd])%list /\
    text dd = Some "Languages".
Proof. eexists. split; reflexivity. Qed.

(** C7 as stated fails: with [selectText] present but empty, the text is
    ["Languages"], not the empty [selectText]. *)
Lemma dropdown_text_nullish_counterexample :
  ~ (forall this dd,
       1 < localeCount this ->
       nav this = Normal (userNav this ++ [dd])%list ->
       text dd = Some (match selectText (themeLocaleConfig this) with
                       | Some s => s
                       | None => "Languages"
                       end)).
Proof.
  intros H.
  destruct (nav_empty_selectText) as [dd [Hnav Htext]].
  specialize (H (Samples.scenario [] (Some "")) dd).
  rewrite Htext in H.
  assert (Hc : Some "Languages" = Some "") by (apply H; [cbv; lia | exact Hnav]).
  discriminate Hc.
Qed.

(** ** Target links of the switcher *)

Lemma GetSubstitution_no_dollar (matched before after template : string) :
  JsString.hasDollar template = false ->
  JsString.GetSubstitution matched before after template = template.
Proof.
  induction template as [|c rest IH]; simpl; intros Hd; [reflexivity|].
  apply orb_false_iff in Hd. destruct Hd as [Hc Hrest].
  rewrite Hc. f_equal. now apply IH.
Qed.

(** Without a dollar sign in the replacement text, [replace] puts the text
    in as it is. *)
Lemma replace_no_dollar (s pat repl : string) :
  JsString.hasDollar repl = false ->
  JsString.replace s pat repl = JsString.replaceLiteral s pat repl.
Proof.
  intros Hd. unfold JsString.replace, JsString.replaceLiteral.
  destruct (JsString.indexOf s pat); [|reflexivity].
  now rewrite GetSubstitution_no_dollar.
Qed.

Lemma append_assoc_string (a b c : string) : (a ++ b) ++ c = a ++ (b ++ c).
Proof. induction a as [|x a IH]; simpl; [reflexivity | now rewrite IH]. Qed.

Lemma startsWith_app (pat rest : string) : JsString.startsWith (pat ++ rest) pat = true.
Proof.
  induction pat as [|c pat IH]; simpl; [reflexivity|].
  now rewrite Ascii.eqb_refl, IH.
Qed.

Lemma drop_app (pat rest : string) : JsString.drop (String.length pat) (pat ++ rest) = rest.
Proof. induction pat as [|c pat IH]; simpl; [reflexivity | exact IH]. Qed.

(** When the page path begins with the prefix of the current locale, the
    literal replacement swaps that prefix for the new one. *)
Lemma replaceLiteral_prefix (pat rest repl : string) :
  JsString.replaceLiteral (pat ++ rest) pat repl = repl ++ rest.
Proof.
  unfold JsString.replaceLiteral.
  assert (Hi : JsString.indexOf (pat ++ rest) pat = Some 0).
  { destruct (pat ++ rest) eqn:E; simpl; rewrite <- E, startsWith_app; reflexivity. }
  rewrite Hi. simpl. now rewrite drop_app.
Qed.

(** Membership of a path in the route table. *)
Lemma route_known (rs : list Route) (p : string) :
  existsb (fun route => path route =? p) rs = true <-> In p (map path rs).
Proof.
  rewrite existsb_exists. split.
  - intros [r [Hin Heq]]. apply String.eqb_eq in Heq. subst p. now apply in_map.
  - intros Hin. apply in_map_iff in Hin. destruct Hin as [r [Heq Hin]].
    exists r. split; [exact Hin|]. now apply String.eqb_eq.
Qed.

(** The priority of the target link, for a locale whose path prefix holds
    no dollar sign: the page itself for the locale of the current
    language; else the page path with the prefix of the current locale
    replaced, when that is a known route; else the prefix of the locale. *)
Lemma localeLink_priority (this : Component) (localeKey : string) (locale : Locale) :
  JsString.hasDollar localeKey = false ->
  let candidate := JsString.replaceLiteral (pagePath this) (localePath this) localeKey in
  (lang locale = Some (currentLang this) -> localeLink this localeKey locale = pagePath this) /\
  (lang locale <> Some (currentLang this) -> In candidate (map path (routes this)) ->
     localeLink this localeKey locale = candidate) /\
  (lang locale <> Some (currentLang this) -> ~ In candidate (map path (routes this)) ->
     localeLink this localeKey locale = localeKey).
Proof.
  intros Hd candidate. unfold localeLink.
  rewrite (replace_no_dollar _ _ _ Hd). fold candidate.
  assert (Heq : strictEq (lang locale) (currentLang this) = true
                <-> lang locale = Some (currentLang this)).
  { unfold strictEq. destruct (lang locale) as [s|].
    - rewrite String.eqb_eq. split; [now intros -> | now intros [= ->]].
    - split; discriminate. }
  repeat split.
  - intros H. apply Heq in H. now rewrite H.
  - intros Hne Hin.
    destruct (strictEq (lang locale) (currentLang this)) eqn:E.
    + exfalso. apply Hne. now apply Heq.
    + apply route_known in Hin. now rewrite Hin.
  - intros Hne Hnin.
    destruct (strictEq (lang locale) (currentLang this)) eqn:E.
    + exfalso. apply Hne. now apply Heq.
    + destruct (existsb _ (routes this)) eqn:Ex; [|reflexivity].
      apply route_known in Ex. contradiction.
Qed.

(** C1, at a locale kept under [/$$/]: the page path with the prefix [/]
    replaced by [/$$/] is [/$$/guide.html], a known route, yet the link
    computed is the bare prefix [/$$/]: [replace] expands [$$] in the
    replacement text and looks for [/$/guide.html]. *)
Theorem localeLink_dollar_prefix :
  Obj.get Samples.dollarLocales "/$$/" = Some Samples.french /\
  lang Samples.french <> Some (currentLang Samples.dollarSite) /\
  JsString.replaceLiteral (pagePath Samples.dollarSite) (localePath Samples.dollarSite) "/$$/"
    = "/$$/guide.html" /\
  In "/$$/guide.html" (map path (routes Samples.dollarSite)) /\
  JsString.replace (pagePath Samples.dollarSite) (localePath Samples.dollarSite) "/$$/"
    = "/$/guide.html" /\
  localeLink Samples.dollarSite "/$$/" Samples.french = "/$$/" /\
  nav Samples.dollarSite =
    Normal (Samples.siteLinks ++
            [{| text := Some "Languages"; link := None; type := None;
                items := Some [ {| text := Some "en-US"; link := Some "/guide.html";
                                   type := None; items := None |};
                                {| text := Some "fr-FR"; link := Some "/$$/";
                                   type := None; items := None |} ] |}])%list.
Proof.
  repeat split; try reflexivity.
  - discriminate.
  - simpl. tauto.
Qed.

(** The scenario of the specification: the French entry links to the same
    page when [/fr/guide/intro.html] is a known route, to [/fr/] when it is
    not; the English entry stays on the page. *)
Lemma scenario_links :
  (exists base its,
     nav (Samples.scenario ["/guide/intro.html"; "/fr/guide/intro.html"] None)
       = Normal (base ++ [{| text := Some "Languages"; link := None; type := None;
                             items := Some its |}])%list /\
     map link its = [Some "/guide/intro.html"; Some "/fr/guide/intro.html"]) /\
  (exists base its,
     nav (Samples.scenario ["/guide/intro.html"] None)
       = Normal (base ++ [{| text := Some "Languages"; link := None; type := None;
                             items := Some its |}])%list /\
     map link its = [Some "/guide/intro.html"; Some "/fr/"]).
Proof. split; eexists; eexists; split; reflexivity. Qed.

(** Every item of the dropdown is built from the locale of its key, in the
    order of [Object.keys(locales)]. *)
Lemma nav_locale_items (this : Component) (ls : Obj.t Locale) :
  locales this = Some ls ->
  1 < List.length (Obj.keys ls) ->
  exists dd its,
    nav this = Normal (userNav this ++ [dd])%list /\
    items dd = Some its /\
    Forall2 (fun k it =>
               exists locale,
                 Obj.get ls k = Some locale /\
                 link it = Some (localeLink this k locale) /\
                 items it = None)
            (Obj.keys ls) its.
Proof.
  intros Hls Hlt.
  destruct (nav_multi this ls Hls Hlt) as [its [Hnav HF]].
  eexists. exists its. split; [exact Hnav|]. split; [reflexivity|].
  eapply Forall2_impl; [|exact HF].
  intros k it Hit. unfold localeItem in Hit.
  destruct (Obj.get ls k) as [locale|]; [|discriminate].
  exists locale. inversion Hit. subst it. simpl. auto.
Qed.

(** ** Resolving the links: [userLinks] *)

(** C8: [userLinks] resolves the list that [nav] returns record by record:
    the output has the length of the input and its [i]-th entry is the
    [i]-th record resolved, whatever [resolveNavLinkItem] computes. *)
Theorem userLinks_length (resolveNavLinkItem : NavItem -> NavItem) (this : Component) :
  exists raw out,
    nav this = Normal raw /\
    userLinks resolveNavLinkItem this = Normal out /\
    List.length out = List.length raw /\
    forall i, nth_error out i = option_map (resolveLink resolveNavLinkItem) (nth_error raw i).
Proof.
  destruct (nav_returns this) as [raw Hraw].
  exists raw, (map (resolveLink resolveNavLinkItem) raw).
  split; [exact Hraw|]. split.
  - unfold userLinks. now rewrite Hraw.
  - split; [apply length_map | intros i; apply nth_error_map].
Qed.

(** Every list of records is the [nav] of some configuration, so the
    statement above covers every raw navigation list. *)
Lemma nav_any_list (raw : list NavItem) :
  exists this, nav this = Normal raw.
Proof.
  exists {| locales := None;
            themeConfig := {| siteNav := Some raw; themeLocales := None; repo := None;
                              explicitRepoLabel := None |};
            themeLocaleConfig := Samples.noThemeLocale;
            currentLang := "en-US"; localePath := "/"; pagePath := "/"; routes := [] |}.
  reflexivity.
Qed.

(** ** The repository link: [repoLink] *)

Lemma startsWith_spec (s pat : string) :
  JsString.startsWith s pat = true <-> beginsWith pat s.
Proof.
  unfold beginsWith. revert s.
  induction pat as [|p pat IH]; intros s; simpl.
  - split; [intros _; now exists s | reflexivity].
  - destruct s as [|c s].
    + split; [discriminate | intros [rest H]; discriminate].
    + rewrite andb_true_iff, Ascii.eqb_eq, IH. split.
      * intros [-> [rest ->]]. now exists rest.
      * intros [rest H]. inversion H. split; [reflexivity | now exists rest].
Qed.

Lemma testHttpScheme_spec (s : string) :
  JsString.testHttpScheme s = true <-> beginsWith "http:" s \/ beginsWith "https:" s.
Proof.
  unfold JsString.testHttpScheme. now rewrite orb_true_iff, !startsWith_spec.
Qed.

Lemma repoLink_unfold (this : Component) :
  repoLink this =
    match repo (themeConfig this) with
    | Some r =>
        if r =? "" then None
        else if JsString.testHttpScheme r then Some r
        else Some ("https://github.com/" ++ r)
    | None => None
    end.
Proof.
  unfold repoLink, JsString.truthy.
  destruct (repo (themeConfig this)) as [r|]; [|reflexivity].
  destruct (r =? ""); reflexivity.
Qed.

(** C6: [repoLink] is absent exactly when [repo] is absent or empty; a
    [repo] that begins with [http:] or [https:] is returned unchanged; any
    other one is appended to [https://github.com/]. *)
Theorem repoLink_cases (this : Component) :
  (repoLink this = None <->
     repo (themeConfig this) = None \/ repo (themeConfig this) = Some "") /\
  (forall r, repo (themeConfig this) = Some r -> r <> "" ->
     beginsWith "http:" r \/ beginsWith "https:" r ->
     repoLink this = Some r) /\
  (forall r, repo (themeConfig this) = Some r -> r <> "" ->
     ~ (beginsWith "http:" r \/ beginsWith "https:" r) ->
     repoLink this = Some ("https://github.com/" ++ r)).
Proof.
  rewrite repoLink_unfold.
  destruct (repo (themeConfig this)) as [r|].
  - destruct (String.eqb_spec r "") as [->|Hne].
    + split; [split; auto|]. split; intros r0 [= <-] H; now contradiction H.
    + split.
      { split.
        - destruct (JsString.testHttpScheme r); discriminate.
        - intros [H|[= H]]; [discriminate | contradiction]. }
      split; intros r0 [= <-] _ Hb.
      * apply testHttpScheme_spec in Hb. now rewrite Hb.
      * rewrite <- testHttpScheme_spec in Hb.
        apply not_true_is_false in Hb. now rewrite Hb.
  - split; [split; auto|]. split; discriminate.
Qed.

Lemma repoLink_cases_witness :
  repoLink (Samples.withRepo (Some "acme/widget") None) = Some "https://github.com/acme/widget".
Proof.
  apply (proj2 (proj2 (repoLink_cases (Samples.withRepo (Some "acme/widget") None)))
           "acme/widget").
  - reflexivity.
  - discriminate.
  - intros [[rest H]|[rest H]]; discriminate H.
Defined.

(** The examples of the specification. *)
Lemma repoLink_examples :
  repoLink (Samples.withRepo None None) = None /\
  repoLink (Samples.withRepo (Some "https://gitlab.com/x/y") None) = Some "https://gitlab.com/x/y" /\
  repoLink (Samples.withRepo (Some "acme/widget") None) = Some "https://github.com/acme/widget".
Proof. repeat split. Qed.

(** ** The repository label: [repoLabel] *)

Lemma startsWithI_spec (s pat : string) :
  JsString.startsWithI s pat = true <->
  exists mid post, s = mid ++ post /\ upper mid = upper pat.
Proof.
  revert s. induction pat as [|p pat IH]; intros s; simpl.
  - split; [intros _; now exists "", s | reflexivity].
  - destruct s as [|c s].
    + split; [discriminate|]. intros [mid [post [Hs Hu]]].
      destruct mid; simpl in *; discriminate.
    + rewrite andb_true_iff, Ascii.eqb_eq, IH. split.
      * intros [Hc [mid [post [-> Hu]]]].
        exists (String c mid), post. simpl. now rewrite Hc, Hu.
      * intros [mid [post [Hs Hu]]].
        destruct mid as [|m mid]; simpl in *; [discriminate|].
        inversion Hs. inversion Hu. subst. split; [reflexivity|].
        now exists mid, post.
Qed.

Lemma testI_spec (word s : string) :
  JsString.testI word s = true <-> occursI word s.
Proof.
  unfold occursI. induction s as [|c s IH]; simpl.
  - rewrite orb_false_r, startsWithI_spec. split.
    + intros [mid [post [Hs Hu]]]. now exists "", mid, post.
    + intros [pre [mid [post [Hs Hu]]]].
      destruct pre; simpl in *; [|discriminate]. now exists mid, post.
  - rewrite orb_true_iff, startsWithI_spec, IH. split.
    + intros [[mid [post [Hs Hu]]] | [pre [mid [post [Hs Hu]]]]].
      * now exists "", mid, post.
      * exists (String c pre), mid, post. simpl. now rewrite Hs.
    + intros [pre [mid [post [Hs Hu]]]].
      destruct pre as [|p pre]; simpl in *.
      * left. now exists mid, post.
      * right. inversion Hs. now exists pre, mid, post.
Qed.

Lemma takeWhileNot_split (stop : ascii) (s : string) :
  exists rest,
    s = JsString.takeWhileNot stop s ++ rest /\
    lacks stop (JsString.takeWhileNot stop s) /\
    (rest = "" \/ beginsWith (String stop "") rest).
Proof.
  induction s as [|c s [rest [Hs [Hl Hr]]]]; simpl.
  - exists "". repeat split; auto. constructor.
  - destruct (Ascii.eqb_spec c stop) as [->|Hne].
    + exists (String stop s). repeat split; [constructor|].
      right. now exists s.
    + exists rest. simpl. split; [now rewrite <- Hs|]. split; [|exact Hr].
      constructor; assumption.
Qed.

(** What [match] returns is the origin of the link. *)
Lemma matchOrigin_origin (l o : string) :
  JsString.matchOrigin l = Some o -> originOf l o.
Proof.
  unfold JsString.matchOrigin, originOf.
  assert (Hgen : forall sch, JsString.startsWith l sch = true ->
            (if JsString.takeWhileNot "/" (JsString.drop (String.length sch) l) =? ""
             then None
             else Some (sch ++ JsString.takeWhileNot "/" (JsString.drop (String.length sch) l)))
            = Some o ->
            exists host rest,
              host <> "" /\ lacks "/" host /\ o = sch ++ host /\ l = o ++ rest /\
              (rest = "" \/ beginsWith "/" rest)).
  { intros sch Hsw Ho. apply startsWith_spec in Hsw. destruct Hsw as [tail ->].
    rewrite drop_app in Ho.
    destruct (String.eqb_spec (JsString.takeWhileNot "/" tail) "") as [He|Hne];
      [discriminate|].
    inversion Ho. subst o.
    destruct (takeWhileNot_split "/" tail) as [rest [Hs [Hl Hr]]].
    exists (JsString.takeWhileNot "/" tail), rest.
    repeat split; auto.
    rewrite append_assoc_string. now rewrite <- Hs. }
  destruct (JsString.startsWith l "https://") eqn:E1.
  - intros Ho. destruct (Hgen "https://" E1 Ho) as [host [rest H]].
    exists "https://", host, rest. tauto.
  - destruct (JsString.startsWith l "http://") eqn:E2; [|discriminate].
    intros Ho. destruct (Hgen "http://" E2 Ho) as [host [rest H]].
    exists "http://", host, rest. tauto.
Qed.

Lemma takeWhileNot_app (stop : ascii) (host rest : string) :
  lacks stop host ->
  rest = "" \/ beginsWith (String stop "") rest ->
  JsString.takeWhileNot stop (host ++ rest) = host.
Proof.
  intros Hl Hr. induction Hl as [|d s Hd Hl IH]; simpl.
  - destruct Hr as [->|[tail ->]]; simpl; [reflexivity|].
    now rewrite Ascii.eqb_refl.
  - apply Ascii.eqb_neq in Hd. now rewrite Hd, IH.
Qed.

(** A link with an origin is matched, and element 0 of the match is that
    origin. *)
Lemma origin_matchOrigin (l o : string) :
  originOf l o -> JsString.matchOrigin l = Some o.
Proof.
  intros [scheme [host [rest [Hsch [Hne [Hl [Ho [Hlo Hr]]]]]]]].
  subst o l. rewrite append_assoc_string.
  assert (Hhost : (host =? "") = false) by now apply String.eqb_neq.
  unfold JsString.matchOrigin.
  destruct Hsch as [-> | ->].
  - replace (JsString.startsWith ("http://" ++ host ++ rest) "https://") with false
      by reflexivity.
    rewrite startsWith_app, drop_app, takeWhileNot_app by assumption.
    now rewrite Hhost.
  - rewrite startsWith_app, drop_app, takeWhileNot_app by assumption.
    now rewrite Hhost.
Qed.

Lemma repoLink_truthy (this : Component) (l : string) :
  repoLink this = Some l -> JsString.truthy (Some l) = true.
Proof.
  rewrite repoLink_unfold. unfold JsString.truthy.
  destruct (repo (themeConfig this)) as [r|]; [|discriminate].
  destruct (r =? "") eqn:E; [discriminate|].
  destruct (JsString.testHttpScheme r); intros [= <-]; [now rewrite E | reflexivity].
Qed.

(** [repoLabel] by cases on what it reads. *)
Lemma repoLabel_unfold (this : Component) :
  repoLabel this =
    match repoLink this with
    | None => Normal None
    | Some l =>
        if JsString.truthy (explicitRepoLabel (themeConfig this))
        then Normal (explicitRepoLabel (themeConfig this))
        else match JsString.matchOrigin l with
             | None => Throw (TypeError "Cannot read property '0' of null")
             | Some repoHost =>
                 Normal (Some (if JsString.testI "GitHub" repoHost then "GitHub"
                               else if JsString.testI "GitLab" repoHost then "GitLab"
                               else if JsString.testI "Bitbucket" repoHost then "Bitbucket"
                               else "Source"))
             end
    end.
Proof.
  unfold repoLabel, repoLabelOf.
  destruct (repoLink this) as [l|] eqn:Hl; [|reflexivity].
  rewrite (repoLink_truthy this l Hl). simpl negb. cbv iota.
  destruct (JsString.truthy _); [reflexivity|].
  destruct (JsString.matchOrigin l) as [h|]; [|reflexivity].
  unfold platforms, firstPlatform.
  destruct (JsString.testI "GitHub" h); [reflexivity|].
  destruct (JsString.testI "GitLab" h); [reflexivity|].
  destruct (JsString.testI "Bitbucket" h); reflexivity.
Qed.

Lemma hostChar_not_slash (c : ascii) : hostChar c = true -> c <> "/"%char.
Proof. intros H ->. discriminate H. Qed.

Lemma digitChar_not_slash (c : ascii) : digitChar c = true -> c <> "/"%char.
Proof. intros H ->. discriminate H. Qed.

Lemma allChars_lacks (p : ascii -> bool) (stop : ascii) (s : string) :
  (forall c, p c = true -> c <> stop) ->
  allChars p s = true -> lacks stop s.
Proof.
  intros Hp. induction s as [|c s IH]; simpl; intros H; [constructor|].
  apply andb_true_iff in H. destruct H as [Hc Hs].
  constructor; [now apply Hp | now apply IH].
Qed.

Lemma lacks_app (stop : ascii) (a b : string) :
  lacks stop a -> lacks stop b -> lacks stop (a ++ b).
Proof.
  intros Ha Hb. induction Ha as [|d s Hd Ha IH]; simpl; [exact Hb|].
  now constructor.
Qed.

(** The digits of a port and its colon are not letters, in either case. *)
Lemma digitChar_no_letter (c : ascii) :
  digitChar c = true -> upperChar (JsString.canonicalize c) = false.
Proof.
  destruct c as [[] [] [] [] [] [] [] []]; intros H; try reflexivity; discriminate H.
Qed.

Lemma portText_no_letter (port : string) :
  portText port ->
  allChars (fun c => negb (upperChar (JsString.canonicalize c))) port = true.
Proof.
  intros [-> | [digits [-> Hd]]]; [reflexivity|].
  simpl. induction digits as [|c ds IH]; [reflexivity|].
  simpl in Hd. apply andb_true_iff in Hd. destruct Hd as [Hc Hds].
  simpl. now rewrite (digitChar_no_letter c Hc), IH.
Qed.

Lemma portText_lacks_slash (port : string) : portText port -> lacks "/" port.
Proof.
  intros [-> | [digits [-> Hd]]]; [constructor|].
  constructor; [discriminate|].
  now apply (allChars_lacks digitChar "/" digits digitChar_not_slash).
Qed.

(** A word made of letters does not begin in a text without letters. *)
Lemma startsWithI_app_no_letter (word s t : string) :
  allChars (fun p => upperChar (JsString.canonicalize p)) word = true ->
  allChars (fun c => negb (upperChar (JsString.canonicalize c))) t = true ->
  JsString.startsWithI (s ++ t) word = JsString.startsWithI s word.
Proof.
  intros Hw Ht. revert s. induction word as [|p w IH]; intros s; [reflexivity|].
  simpl in Hw. apply andb_true_iff in Hw. destruct Hw as [Hp Hw].
  destruct s as [|c s]; simpl.
  - destruct t as [|c t]; [reflexivity|].
    simpl in Ht. apply andb_true_iff in Ht. destruct Ht as [Hc _].
    apply negb_true_iff in Hc.
    destruct (Ascii.eqb_spec (JsString.canonicalize c) (JsString.canonicalize p)) as [E|_];
      [|reflexivity].
    rewrite E in Hc. congruence.
  - now rewrite (IH Hw s).
Qed.

Lemma testI_no_letter (word t : string) :
  word <> "" ->
  allChars (fun p => upperChar (JsString.canonicalize p)) word = true ->
  allChars (fun c => negb (upperChar (JsString.canonicalize c))) t = true ->
  JsString.testI word t = false.
Proof.
  intros Hne Hw. induction t as [|c t IH]; intros Ht.
  - destruct word; [contradiction | reflexivity].
  - simpl JsString.testI.
    assert (Hnil : JsString.startsWithI "" word = false)
      by (destruct word; [contradiction | reflexivity]).
    pose proof (startsWithI_app_no_letter word "" (String c t) Hw Ht) as H0.
    simpl append in H0. rewrite H0, Hnil. simpl.
    simpl in Ht. apply andb_true_iff in Ht. now apply IH.
Qed.

(** A text without letters, put after [s], adds no occurrence of a word
    made of letters. *)
Lemma testI_app_no_letter (word s t : string) :
  word <> "" ->
  allChars (fun p => upperChar (JsString.canonicalize p)) word = true ->
  allChars (fun c => negb (upperChar (JsString.canonicalize c))) t = true ->
  JsString.testI word (s ++ t) = JsString.testI word s.
Proof.
  intros Hne Hw Ht. induction s as [|c s IH].
  - simpl append. rewrite (testI_no_letter word t Hne Hw Ht).
    destruct word; [contradiction | reflexivity].
  - change (String c s ++ t) with (String c (s ++ t)). simpl JsString.testI.
    rewrite IH.
    pose proof (startsWithI_app_no_letter word (String c s) t Hw Ht) as H0.
    simpl append in H0. now rewrite H0.
Qed.

(** For a URL, what [match] returns is the scheme and host, with the port
    if there is one. *)
Lemma urlOrigin_originOf (l o : string) :
  urlOrigin l o ->
  exists port, portText port /\ originOf l (o ++ port).
Proof.
  intros [scheme [host [port [rest [Hsch [Hne [Hhost [Hport [Ho [Hl Hr]]]]]]]]]].
  exists port. split; [exact Hport|].
  exists scheme, (host ++ port), rest. subst o l.
  split; [exact Hsch|]. split.
  { destruct host; [contradiction | discriminate]. }
  split.
  { apply lacks_app.
    - now apply (allChars_lacks hostChar "/" host hostChar_not_slash).
    - now apply portText_lacks_slash. }
  split; [now rewrite append_assoc_string|].
  split; [now rewrite !append_assoc_string | exact Hr].
Qed.

(** The label of a URL, when no explicit label is set: read off its scheme
    and host. *)
Lemma repoLabel_of_urlOrigin (this : Component) (l o : string) :
  repoLink this = Some l ->
  JsString.truthy (explicitRepoLabel (themeConfig this)) = false ->
  urlOrigin l o ->
  repoLabel this =
    Normal (Some (if JsString.testI "GitHub" o then "GitHub"
                  else if JsString.testI "GitLab" o then "GitLab"
                  else if JsString.testI "Bitbucket" o then "Bitbucket"
                  else "Source")).
Proof.
  intros Hl Hf Ho.
  destruct (urlOrigin_originOf l o Ho) as [port [Hport Hor]].
  rewrite repoLabel_unfold, Hl, Hf, (origin_matchOrigin _ _ Hor).
  pose proof (portText_no_letter port Hport) as Hnl.
  rewrite !(fun w Hne Hw => testI_app_no_letter w o port Hne Hw Hnl)
    by (discriminate || reflexivity).
  reflexivity.
Qed.

(** A run of host characters that ends at [c] holds the host. *)
Lemma host_run (host tail pre post : string) (c : ascii) :
  allChars hostChar host = true ->
  allChars hostChar pre = true ->
  hostChar c = false ->
  host ++ tail = pre ++ String c post ->
  exists more, pre = host ++ more /\ tail = more ++ String c post.
Proof.
  revert pre. induction host as [|h host IH]; intros pre Hh Hp Hc Heq.
  - now exists pre.
  - simpl in Hh. apply andb_true_iff in Hh. destruct Hh as [Hh Hhost].
    destruct pre as [|p pre]; simpl in Heq; inversion Heq as [[E1 E2]].
    + congruence.
    + simpl in Hp. apply andb_true_iff in Hp. destruct Hp as [_ Hp].
      destruct (IH pre Hhost Hp Hc E2) as [more [-> ->]].
      now exists more.
Qed.

(** In a URL of this form the host name ends at a colon, at a slash or
    at the end: a link with a question mark, a hash or an at sign right
    after its host characters is not of the form. *)
Lemma urlOrigin_delimiter (scheme pre post o : string) (c : ascii) :
  scheme = "http://" \/ scheme = "https://" ->
  allChars hostChar pre = true ->
  hostChar c = false ->
  urlOrigin (scheme ++ pre ++ String c post) o ->
  c = ":"%char \/ c = "/"%char.
Proof.
  intros Hs Hp Hc [scheme' [host [port [rest [Hs' [_ [Hhost [Hport [-> [Hl Hr]]]]]]]]]].
  rewrite !append_assoc_string in Hl.
  assert (Htail : pre ++ String c post = host ++ port ++ rest).
  { destruct Hs as [-> | ->], Hs' as [-> | ->]; simpl in Hl; inversion Hl; reflexivity. }
  destruct (host_run host (port ++ rest) pre post c Hhost Hp Hc (eq_sym Htail))
    as [more [-> Hmore]].
  assert (Hm : allChars hostChar more = true).
  { clear -Hp. induction host as [|h host IH]; simpl in Hp; [exact Hp|].
    apply andb_true_iff in Hp. now apply IH. }
  destruct more as [|m more].
  - simpl in Hmore.
    destruct Hport as [-> | [d [-> _]]]; simpl in Hmore.
    + destruct Hr as [-> | [r ->]]; simpl in Hmore; inversion Hmore. now right.
    + inversion Hmore. now left.
  - simpl in Hm. apply andb_true_iff in Hm. destruct Hm as [Hm _].
    exfalso.
    destruct Hport as [-> | [d [-> _]]]; simpl in Hmore.
    + destruct Hr as [-> | [r ->]]; simpl in Hmore; inversion Hmore. subst m. discriminate Hm.
    + inversion Hmore. subst m. discriminate Hm.
Qed.

(** C5, as the code has it: without a repository link there is no label;
    an explicit label that is not empty is returned as it is; with no
    explicit label, or an empty one, and a link that is a URL made of
    [http://] or [https://], a host name, a port if any, and then nothing
    or a path, the label is the first of GitHub, GitLab, Bitbucket that
    occurs in the scheme and host, case ignored, and ["Source"] when none
    does. *)
Theorem repoLabel_cases (this : Component) :
  (repoLink this = None -> repoLabel this = Normal None) /\
  (forall l e,
     repoLink this = Some l ->
     explicitRepoLabel (themeConfig this) = Some e -> e <> "" ->
     repoLabel this = Normal (Some e)) /\
  (forall l o,
     repoLink this = Some l ->
     explicitRepoLabel (themeConfig this) = None \/
     explicitRepoLabel (themeConfig this) = Some "" ->
     urlOrigin l o ->
     (occursI "GitHub" o -> repoLabel this = Normal (Some "GitHub")) /\
     (~ occursI "GitHub" o -> occursI "GitLab" o ->
        repoLabel this = Normal (Some "GitLab")) /\
     (~ occursI "GitHub" o -> ~ occursI "GitLab" o -> occursI "Bitbucket" o ->
        repoLabel this = Normal (Some "Bitbucket")) /\
     (~ occursI "GitHub" o -> ~ occursI "GitLab" o -> ~ occursI "Bitbucket" o ->
        repoLabel this = Normal (Some "Source"))).
Proof.
  split; [|split].
  - rewrite repoLabel_unfold. now intros ->.
  - rewrite repoLabel_unfold. intros l e -> -> Hne. unfold JsString.truthy.
    apply String.eqb_neq in Hne. now rewrite Hne.
  - intros l o Hl Hlabel Ho.
    assert (Hf : JsString.truthy (explicitRepoLabel (themeConfig this)) = false)
      by (destruct Hlabel as [-> | ->]; reflexivity).
    rewrite (repoLabel_of_urlOrigin this l o Hl Hf Ho).
    rewrite <- !testI_spec.
    destruct (JsString.testI "GitHub" o), (JsString.testI "GitLab" o),
      (JsString.testI "Bitbucket" o); repeat split; intros; congruence.
Qed.

Lemma repoLabel_cases_witness :
  repoLabel (Samples.withRepo (Some "https://gitlab.com:8443/x/y") None)
  = Normal (Some "GitLab").
Proof.
  destruct (repoLabel_cases (Samples.withRepo (Some "https://gitlab.com:8443/x/y") None))
    as [_ [_ H]].
  destruct (H "https://gitlab.com:8443/x/y" "https://gitlab.com") as [_ [HGitLab _]].
  - reflexivity.
  - left. reflexivity.
  - exists "https://", "gitlab.com", ":8443", "/x/y".
    split; [now right|]. split; [discriminate|]. split; [reflexivity|].
    split; [right; now exists "8443"|]. split; [reflexivity|].
    split; [reflexivity|]. right. now exists "x/y".
  - apply HGitLab.
    + rewrite <- testI_spec. discriminate.
    + rewrite <- testI_spec. reflexivity.
Defined.

(** The examples of the specification. *)
Lemma repoLabel_examples :
  repoLabel (Samples.withRepo (Some "https://gitlab.com/x/y") None) = Normal (Some "GitLab") /\
  repoLabel (Samples.withRepo (Some "https://example.com/x") None) = Normal (Some "Source") /\
  repoLabel (Samples.withRepo (Some "https://example.com/x") (Some "MyRepo"))
    = Normal (Some "MyRepo") /\
  repoLabel (Samples.withRepo (Some "https://example.com/github") None)
    = Normal (Some "Source") /\
  repoLabel (Samples.withRepo None (Some "MyRepo")) = Normal None.
Proof. repeat split. Qed.

(** C5 as stated fails: an explicit label that is present but empty is not
    returned; the label is derived from the link. *)
Lemma repoLabel_empty_label_counterexample :
  ~ (forall this l e,
       repoLink this = Some l ->
       explicitRepoLabel (themeConfig this) = Some e ->
       repoLabel this = Normal (Some e)).
Proof.
  intros H.
  specialize (H (Samples.withRepo (Some "acme/widget") (Some ""))
                "https://github.com/acme/widget" "" eq_refl eq_refl).
  vm_compute in H. discriminate H.
Qed.

(** C2, at a [repo] written [https:/github.com/acme/widget]: [repoLink]
    takes it for a URL and returns it, [match] finds no origin in it and
    returns [null], and [repoLabel] throws on reading element 0. *)
Theorem repoLabel_throws_without_origin :
  repoLink Samples.oneSlashRepo = Some "https:/github.com/acme/widget" /\
  JsString.matchOrigin "https:/github.com/acme/widget" = None /\
  repoLabel Samples.oneSlashRepo = Throw (TypeError "Cannot read property '0' of null") /\
  ~ returns (repoLabel Samples.oneSlashRepo).
Proof.
  repeat split. intros [a Ha]. discriminate Ha.
Qed.

(** [repoLabel] throws exactly when there is a link without an origin and
    no explicit label to return. *)
Lemma repoLabel_returns_iff (this : Component) :
  returns (repoLabel this) <->
  (forall l, repoLink this = Some l ->
     JsString.truthy (explicitRepoLabel (themeConfig this)) = true \/
     exists o, originOf l o).
Proof.
  rewrite repoLabel_unfold. unfold returns.
  destruct (repoLink this) as [l|].
  - destruct (JsString.truthy (explicitRepoLabel (themeConfig this))).
    + split; [intros _ l0 _; now left | intros _; eexists; reflexivity].
    + destruct (JsString.matchOrigin l) as [o|] eqn:Ho.
      * split; [|intros _; eexists; reflexivity].
        intros _ l0 [= <-]. right. exists o. now apply matchOrigin_origin.
      * split; [intros [a Ha]; discriminate Ha|].
        intros H. destruct (H l eq_refl) as [Hc | [o Hor]]; [discriminate|].
        apply origin_matchOrigin in Hor. congruence.
  - split; [intros _ l Hl; discriminate Hl | intros _; eexists; reflexivity].
Qed.

(** ** [nav] in the store: what is allocated, what is left alone *)

Lemma read_app_old (h new : Store.t) (l : Store.loc) (c : Store.cell) :
  Store.read h l = Some c -> Store.read (h ++ new)%list l = Some c.
Proof.
  unfold Store.read. intros H.
  rewrite nth_error_app1; [exact H|].
  apply nth_error_Some. congruence.
Qed.

Lemma read_app_new (h new : Store.t) (i : nat) :
  Store.read (h ++ new)%list (List.length h + i) = nth_error new i.
Proof.
  unfold Store.read. rewrite nth_error_app2 by lia.
  f_equal. lia.
Qed.

Lemma fresh_beyond (h : Store.t) (l : Store.loc) :
  List.length h <= l -> Store.fresh h l.
Proof. intros H. now apply nth_error_None. Qed.

Lemma mapAlloc_spec (f : string -> completion NavItem) (keys : list string)
    (its : list NavItem) :
  Forall2 (fun k it => f k = Normal it) keys its ->
  forall h,
    Store.mapAlloc f keys h =
      Normal ((h ++ map Store.cellOf its)%list, seq (List.length h) (List.length its)).
Proof.
  induction 1 as [|k it ks its' Hk HF IH]; intros h; simpl.
  - now rewrite app_nil_r.
  - rewrite Hk. simpl. rewrite IH. simpl.
    rewrite <- app_assoc, length_app. simpl.
    now rewrite Nat.add_1_r.
Qed.

(** The store that [nav] leaves when it builds the switcher: five kinds of
    new cells after the old ones, which are all kept. *)
Lemma Store_nav_multi (this : Component) (ls : Obj.t Locale) (base : Store.loc)
    (elems : list Store.value) (h : Store.t) (its : list NavItem) :
  locales this = Some ls ->
  1 < List.length (Obj.keys ls) ->
  Store.read h base = Some (Store.Arr elems) ->
  Forall2 (fun k it =>
             localeItem this ls
               (match themeLocales (themeConfig this) with Some o => o | None => [] end) k
             = Normal it)
          (Obj.keys ls) its ->
  let n := List.length h in
  let m := List.length its in
  Store.nav this base h =
    Normal ((h ++ (Store.Arr (map Store.VStr (Obj.keys ls))
                   :: map Store.cellOf its ++
                      [Store.Arr (map Store.VRef (seq (n + 1) m));
                       Store.Item (JsString.or (selectText (themeLocaleConfig this))
                                               (Some "Languages"))
                                  None None (Some (n + 1 + m));
                       Store.Arr (elems ++ [Store.VRef (n + 1 + m + 1)])]))%list,
            n + 1 + m + 1 + 1).
Proof.
  intros Hls Hlt Hbase HF n m. unfold Store.nav. rewrite Hls.
  apply Nat.ltb_lt in Hlt. rewrite Hlt. unfold Store.alloc.
  rewrite (mapAlloc_spec _ _ _ HF). simpl bind. cbv beta iota. simpl fst. simpl snd.
  rewrite (read_app_old _ _ _ _ (read_app_old _ _ _ _ (read_app_old _ _ _ _
             (read_app_old _ _ _ _ Hbase)))).
  rewrite !length_app, !length_map. simpl List.length. fold n m.
  f_equal. f_equal.
  rewrite <- !app_assoc. reflexivity.
Qed.

(** C9: [nav] writes to no cell that exists when it is called, so the
    array of base links holds the same entries afterwards; when the
    switcher is appended the result is a new array, whose entries are
    those of the base array followed by one reference to a new object;
    otherwise the store is untouched. *)
Theorem nav_does_not_mutate (this : Component) (base : Store.loc)
    (elems : list Store.value) (h : Store.t) :
  Store.read h base = Some (Store.Arr elems) ->
  exists h' r,
    Store.nav this base h = Normal (h', r) /\
    (forall l c, Store.read h l = Some c -> Store.read h' l = Some c) /\
    Store.read h' base = Some (Store.Arr elems) /\
    (1 < localeCount this ->
       Store.fresh h r /\ r <> base /\
       exists dd its,
         Store.fresh h dd /\
         Store.read h' r = Some (Store.Arr (elems ++ [Store.VRef dd])) /\
         Store.read h' dd =
           Some (Store.Item (JsString.or (selectText (themeLocaleConfig this))
                                         (Some "Languages"))
                            None None (Some its)) /\
         Store.fresh h its) /\
    (localeCount this <= 1 -> h' = h /\ r = base).
Proof.
  intros Hbase.
  assert (Hin : base < List.length h).
  { apply nth_error_Some. unfold Store.read in Hbase. congruence. }
  destruct (le_lt_dec (localeCount this) 1) as [Hle|Hlt].
  - exists h, base. repeat split; auto; try lia.
    unfold Store.nav. unfold localeCount in Hle.
    destruct (locales this) as [ls|]; [|reflexivity].
    apply Nat.ltb_ge in Hle. now rewrite Hle.
  - pose proof Hlt as Hlt'. unfold localeCount in Hlt'.
    destruct (locales this) as [ls|] eqn:Hls; [|lia].
    destruct (nav_multi this ls Hls Hlt') as [its [_ HF]].
    pose proof (Store_nav_multi this ls base elems h its Hls Hlt' Hbase HF) as Hnav.
    cbv zeta in Hnav.
    eexists. eexists. split; [exact Hnav|].
    split; [intros l c Hl; now apply read_app_old|].
    split; [now apply read_app_old|].
    split; [|intros Hle; lia].
    intros _. split; [apply fresh_beyond; lia|]. split; [lia|].
    exists (List.length h + 1 + List.length its + 1), (List.length h + 1 + List.length its).
    split; [apply fresh_beyond; lia|].
    split; [|split; [|apply fresh_beyond; lia]].
    + replace (List.length h + 1 + List.length its + 1 + 1)
        with (List.length h + (1 + List.length its + 1 + 1)) by lia.
      rewrite read_app_new. simpl.
      rewrite nth_error_app2; rewrite length_map; [|lia].
      replace (List.length its + 1 + 1 - List.length its) with 2 by lia. reflexivity.
    + replace (List.length h + 1 + List.length its + 1)
        with (List.length h + (1 + List.length its + 1)) by lia.
      rewrite read_app_new. simpl.
      rewrite nth_error_app2; rewrite length_map; [|lia].
      replace (List.length its + 1 - List.length its) with 1 by lia. reflexivity.
Qed.

Lemma nav_does_not_mutate_witness :
  Store.read Samples.smallStore 1 = Some (Store.Arr [Store.VRef 0]) /\
  exists h' r,
    Store.nav (Samples.scenario [] None) 1 Samples.smallStore = Normal (h', r) /\
    (forall l c, Store.read Samples.smallStore l = Some c -> Store.read h' l = Some c) /\
    Store.read h' 1 = Some (Store.Arr [Store.VRef 0]) /\
    (1 < localeCount (Samples.scenario [] None) ->
       Store.fresh Samples.smallStore r /\ r <> 1 /\
       exists dd its,
         Store.fresh Samples.smallStore dd /\
         Store.read h' r = Some (Store.Arr ([Store.VRef 0] ++ [Store.VRef dd])) /\
         Store.read h' dd =
           Some (Store.Item
                   (JsString.or (selectText (themeLocaleConfig (Samples.scenario [] None)))
                                (Some "Languages"))
                   None None (Some its)) /\
         Store.fresh Samples.smallStore its) /\
    (localeCount (Samples.scenario [] None) <= 1 -> h' = Samples.smallStore /\ r = 1).
Proof.
  split; [reflexivity|].
  apply (nav_does_not_mutate (Samples.scenario [] None) 1 [Store.VRef 0] Samples.smallStore).
  reflexivity.
Defined.

Lemma read_middle (f : NavItem -> Store.cell) (its : list NavItem) :
  forall (pre post : Store.t),
    Forall2 (fun l it => Store.read (pre ++ map f its ++ post)%list l = Some (f it)
                         /\ List.length pre <= l)
            (seq (List.length pre) (List.length its)) its.
Proof.
  induction its as [|it its IH]; intros pre post; simpl; constructor.
  - split; [|lia]. unfold Store.read.
    rewrite nth_error_app2 by lia. now rewrite Nat.sub_diag.
  - specialize (IH (pre ++ [f it])%list post).
    rewrite length_app in IH. simpl in IH. rewrite Nat.add_1_r in IH.
    rewrite <- app_assoc in IH. simpl in IH.
    eapply Forall2_impl; [|exact IH].
    simpl. intros l x [Hr Hl]. split; [exact Hr | lia].
Qed.

(** The store version computes what [nav] computes: the new array lists
    the base entries and then the dropdown, whose text and items are those
    of the list returned by [nav], each item in a cell of its own. *)
Lemma Store_nav_refines (this : Component) (base : Store.loc)
    (elems : list Store.value) (h : Store.t) :
  Store.read h base = Some (Store.Arr elems) ->
  1 < localeCount this ->
  exists h' r dd a ilocs txt its,
    Store.nav this base h = Normal (h', r) /\
    nav this = Normal (userNav this ++
                       [{| text := txt; link := None; type := None;
                           items := Some its |}])%list /\
    Store.read h' r = Some (Store.Arr (elems ++ [Store.VRef dd])) /\
    Store.read h' dd = Some (Store.Item txt None None (Some a)) /\
    Store.read h' a = Some (Store.Arr (map Store.VRef ilocs)) /\
    Forall2 (fun l it => Store.read h' l = Some (Store.cellOf it) /\ Store.fresh h l)
            ilocs its.
Proof.
  intros Hbase Hlt. unfold localeCount in Hlt.
  destruct (locales this) as [ls|] eqn:Hls; [|lia].
  destruct (nav_multi this ls Hls Hlt) as [its [Hpure HF]].
  pose proof (Store_nav_multi this ls base elems h its Hls Hlt Hbase HF) as Hnav.
  cbv zeta in Hnav.
  set (n := List.length h) in *. set (m := List.length its) in *.
  eexists. exists (n + 1 + m + 1 + 1), (n + 1 + m + 1), (n + 1 + m), (seq (n + 1) m).
  eexists. exists its.
  split; [exact Hnav|]. split; [exact Hpure|].
  split; [|split; [|split]].
  - replace (n + 1 + m + 1 + 1) with (n + (1 + m + 1 + 1)) by lia.
    unfold n. rewrite read_app_new. simpl.
    rewrite nth_error_app2; rewrite length_map; fold m; [|lia].
    replace (m + 1 + 1 - m) with 2 by lia. reflexivity.
  - replace (n + 1 + m + 1) with (n + (1 + m + 1)) by lia.
    unfold n. rewrite read_app_new. simpl.
    rewrite nth_error_app2; rewrite length_map; fold m; [|lia].
    replace (m + 1 - m) with 1 by lia. reflexivity.
  - replace (n + 1 + m) with (n + (1 + m)) by lia.
    unfold n. rewrite read_app_new. simpl.
    rewrite nth_error_app2; rewrite length_map; fold m; [|lia].
    replace (m - m) with 0 by lia. reflexivity.
  - match goal with
    | |- Forall2 _ _ _ =>
        pose proof (read_middle Store.cellOf its
                      (h ++ [Store.Arr (map Store.VStr (Obj.keys ls))])%list
                      [Store.Arr (map Store.VRef (seq (n + 1) m));
                       Store.Item (JsString.or (selectText (themeLocaleConfig this))
                                               (Some "Languages"))
                                  None None (Some (n + 1 + m));
                       Store.Arr (elems ++ [Store.VRef (n + 1 + m + 1)])%list]) as HM
    end.
    rewrite length_app in HM. simpl in HM. fold n m in HM.
    rewrite <- app_assoc in HM. simpl in HM.
    eapply Forall2_impl; [|exact HM].
    simpl. intros l it [Hr Hl]. split; [exact Hr|].
    apply fresh_beyond. fold n. lia.
Qed.

(** ** Which operations always return *)

(** [userLinks] returns for every configuration, whatever total function
    [resolveNavLinkItem] is; so does [repoLink], a function to an optional
    string. *)
Lemma userLinks_returns (resolveNavLinkItem : NavItem -> NavItem) (this : Component) :
  returns (userLinks resolveNavLinkItem this).
Proof.
  destruct (nav_returns this) as [raw Hraw].
  exists (map (resolveLink resolveNavLinkItem) raw).
  unfold userLinks. now rewrite Hraw.
Qed.

(** * Further properties *)

(** ** Of [repoLink] *)

(** X1: a repository link, when there is one, begins with [http:] or
    [https:]; [repoLink] never hands out a relative reference. *)
Theorem repoLink_begins_http (this : Component) (l : string) :
  repoLink this = Some l ->
  beginsWith "http:" l \/ beginsWith "https:" l.
Proof.
  rewrite repoLink_unfold.
  destruct (repo (themeConfig this)) as [r|]; [|discriminate].
  destruct (r =? ""); [discriminate|].
  destruct (JsString.testHttpScheme r) eqn:E; intros [= <-].
  - now apply testHttpScheme_spec.
  - right. now exists ("//github.com/" ++ r).
Qed.

Lemma repoLink_begins_http_witness :
  repoLink (Samples.withRepo (Some "acme/widget") None) = Some "https://github.com/acme/widget" /\
  (beginsWith "http:" "https://github.com/acme/widget" \/
   beginsWith "https:" "https://github.com/acme/widget").
Proof.
  split; [reflexivity|].
  apply (repoLink_begins_http (Samples.withRepo (Some "acme/widget") None)).
  reflexivity.
Defined.

(** X2: [repoLink] is idempotent: a configuration whose [repo] is the
    link computed for another one gets that same link. *)
Theorem repoLink_idempotent (this this' : Component) :
  repo (themeConfig this') = repoLink this ->
  repoLink this' = repoLink this.
Proof.
  intros Hrepo. rewrite (repoLink_unfold this'), Hrepo.
  rewrite (repoLink_unfold this).
  destruct (repo (themeConfig this)) as [r|]; [|reflexivity].
  destruct (r =? "") eqn:Er; [reflexivity|].
  destruct (JsString.testHttpScheme r) eqn:Et.
  - now rewrite Er, Et.
  - reflexivity.
Qed.

Lemma repoLink_idempotent_witness :
  repo (themeConfig (Samples.withRepo (Some "https://github.com/acme/widget") None))
    = repoLink (Samples.withRepo (Some "acme/widget") None) /\
  repoLink (Samples.withRepo (Some "https://github.com/acme/widget") None)
    = repoLink (Samples.withRepo (Some "acme/widget") None).
Proof.
  split; [reflexivity|].
  apply (repoLink_idempotent (Samples.withRepo (Some "acme/widget") None)
           (Samples.withRepo (Some "https://github.com/acme/widget") None)).
  reflexivity.
Defined.

(** ** Of [repoLabel] *)

(** The link made for a short identifier has the origin of GitHub. *)
Lemma short_form_origin (r : string) :
  originOf ("https://github.com/" ++ r) "https://github.com".
Proof.
  exists "https://", "github.com", ("/" ++ r).
  repeat split; try discriminate.
  - now right.
  - repeat (constructor; [discriminate|]). constructor.
  - right. now exists r.
Qed.

(** X3: for a short identifier, i.e. a [repo] that is not empty and does
    not begin with [http:] or [https:], and no explicit label, the label is
    ["GitHub"], whatever the identifier holds. *)
Theorem repoLabel_short_form (this : Component) (r : string) :
  repo (themeConfig this) = Some r ->
  r <> "" ->
  ~ (beginsWith "http:" r \/ beginsWith "https:" r) ->
  JsString.truthy (explicitRepoLabel (themeConfig this)) = false ->
  repoLabel this = Normal (Some "GitHub").
Proof.
  intros Hr Hne Hb Hlabel.
  rewrite repoLabel_unfold, repoLink_unfold, Hr, Hlabel.
  apply String.eqb_neq in Hne. rewrite Hne.
  rewrite <- testHttpScheme_spec in Hb. apply not_true_is_false in Hb. rewrite Hb.
  now rewrite (origin_matchOrigin _ _ (short_form_origin r)).
Qed.

Lemma repoLabel_short_form_witness :
  repoLabel (Samples.withRepo (Some "gitlab/bitbucket") None) = Normal (Some "GitHub").
Proof.
  apply (repoLabel_short_form (Samples.withRepo (Some "gitlab/bitbucket") None)
           "gitlab/bitbucket").
  - reflexivity.
  - discriminate.
  - intros [[rest H]|[rest H]]; discriminate H.
  - reflexivity.
Defined.


(** X5: a label that [repoLabel] returns is the explicit label, not empty,
    or one of GitHub, GitLab, Bitbucket and Source. *)
Theorem repoLabel_range (this : Component) (s : string) :
  repoLabel this = Normal (Some s) ->
  (explicitRepoLabel (themeConfig this) = Some s /\ s <> "") \/
  In s derivedLabels.
Proof.
  rewrite repoLabel_unfold.
  destruct (repoLink this) as [l|]; [|discriminate].
  destruct (explicitRepoLabel (themeConfig this)) as [e|]; simpl.
  - destruct (String.eqb_spec e "") as [->|Hne]; simpl.
    + destruct (JsString.matchOrigin l) as [o|]; [|discriminate].
      intros [= <-]. right.
      destruct (JsString.testI "GitHub" o); [simpl; tauto|].
      destruct (JsString.testI "GitLab" o); [simpl; tauto|].
      destruct (JsString.testI "Bitbucket" o); simpl; tauto.
    + intros [= <-]. left. split; [reflexivity | exact Hne].
  - destruct (JsString.matchOrigin l) as [o|]; [|discriminate].
    intros [= <-]. right.
    destruct (JsString.testI "GitHub" o); [simpl; tauto|].
    destruct (JsString.testI "GitLab" o); [simpl; tauto|].
    destruct (JsString.testI "Bitbucket" o); simpl; tauto.
Qed.

Lemma repoLabel_range_witness :
  (explicitRepoLabel (themeConfig (Samples.withRepo (Some "https://example.com/x") None))
     = Some "Source" /\ "Source" <> "") \/
  In "Source" derivedLabels.
Proof.
  apply (repoLabel_range (Samples.withRepo (Some "https://example.com/x") None) "Source").
  reflexivity.
Defined.

Lemma canonicalize_idem (c : ascii) :
  JsString.canonicalize (JsString.canonicalize c) = JsString.canonicalize c.
Proof. destruct c as [[] [] [] [] [] [] [] []]; reflexivity. Qed.

Lemma startsWithI_upper (pat s1 s2 : string) :
  upper s1 = upper s2 -> JsString.startsWithI s1 pat = JsString.startsWithI s2 pat.
Proof.
  revert s1 s2. induction pat as [|p pat IH]; intros s1 s2 Hu; [reflexivity|].
  destruct s1 as [|c1 s1], s2 as [|c2 s2]; simpl in *; try discriminate; [reflexivity|].
  inversion Hu as [[Hc Ht]]. now rewrite Hc, (IH s1 s2 Ht).
Qed.

(** The test of a platform name sees the text only up to case. *)
Lemma testI_upper (word s1 s2 : string) :
  upper s1 = upper s2 -> JsString.testI word s1 = JsString.testI word s2.
Proof.
  revert s2. induction s1 as [|c1 s1 IH]; intros s2 Hu.
  - destruct s2; [reflexivity | discriminate].
  - destruct s2 as [|c2 s2]; [discriminate|].
    simpl JsString.testI.
    rewrite (startsWithI_upper word _ _ Hu).
    simpl in Hu. inversion Hu as [[Hc Ht]]. now rewrite (IH s2 Ht).
Qed.

(** X6: without an explicit label, the label of a URL (scheme, host
    name, a port if any, then nothing or a path) depends on its scheme and
    host only, and on those up to the case of their letters: the port and
    the path play no part, and two hosts that differ in case get the same
    label. *)
Theorem repoLabel_origin_only (this1 this2 : Component) (l1 l2 o1 o2 : string) :
  repoLink this1 = Some l1 ->
  repoLink this2 = Some l2 ->
  JsString.truthy (explicitRepoLabel (themeConfig this1)) = false ->
  JsString.truthy (explicitRepoLabel (themeConfig this2)) = false ->
  urlOrigin l1 o1 ->
  urlOrigin l2 o2 ->
  upper o1 = upper o2 ->
  repoLabel this1 = repoLabel this2.
Proof.
  intros H1 H2 Hl1 Hl2 Ho1 Ho2 Hu.
  rewrite (repoLabel_of_urlOrigin this1 l1 o1 H1 Hl1 Ho1).
  rewrite (repoLabel_of_urlOrigin this2 l2 o2 H2 Hl2 Ho2).
  now rewrite !(testI_upper _ o1 o2 Hu).
Qed.

Lemma repoLabel_origin_only_witness :
  repoLabel (Samples.withRepo (Some "https://GitLab.com:8443/x/y") None)
  = repoLabel (Samples.withRepo (Some "https://gitlab.com/github/z") None).
Proof.
  apply (repoLabel_origin_only
           (Samples.withRepo (Some "https://GitLab.com:8443/x/y") None)
           (Samples.withRepo (Some "https://gitlab.com/github/z") None)
           "https://GitLab.com:8443/x/y" "https://gitlab.com/github/z"
           "https://GitLab.com" "https://gitlab.com");
    try reflexivity.
  - exists "https://", "GitLab.com", ":8443", "/x/y".
    split; [now right|]. split; [discriminate|]. split; [reflexivity|].
    split; [right; now exists "8443"|]. split; [reflexivity|].
    split; [reflexivity|]. right. now exists "x/y".
  - exists "https://", "gitlab.com", "", "/github/z".
    split; [now right|]. split; [discriminate|]. split; [reflexivity|].
    split; [now left|]. split; [reflexivity|].
    split; [reflexivity|]. right. now exists "github/z".
Defined.

Lemma repoLink_None_iff (this : Component) :
  repoLink this = None <->
  repo (themeConfig this) = None \/ repo (themeConfig this) = Some "".
Proof.
  rewrite repoLink_unfold.
  destruct (repo (themeConfig this)) as [r|]; [|split; auto].
  destruct (String.eqb_spec r "") as [->|Hne]; [split; auto|].
  split.
  - destruct (JsString.testHttpScheme r); discriminate.
  - intros [H|[= H]]; [discriminate | contradiction].
Qed.

(** X7: the label is absent exactly when [repo] is absent or empty: with
    a [repo], [repoLabel] returns a label or throws. *)
Theorem repoLabel_absent_iff (this : Component) :
  repoLabel this = Normal None <->
  repo (themeConfig this) = None \/ repo (themeConfig this) = Some "".
Proof.
  rewrite repoLabel_unfold.
  pose proof (repoLink_None_iff this) as Hnone.
  destruct (repoLink this) as [l|].
  - split; [|intros H; apply Hnone in H; discriminate H].
    intros H. exfalso.
    destruct (explicitRepoLabel (themeConfig this)) as [e|]; simpl in H.
    + destruct (e =? ""); simpl in H; [|discriminate H].
      destruct (JsString.matchOrigin l); discriminate H.
    + destruct (JsString.matchOrigin l); discriminate H.
  - split; [intros _; now apply Hnone | reflexivity].
Qed.

(** ** Of the links of the language dropdown *)

Lemma strictEq_true_iff (a : option string) (b : string) :
  strictEq a b = true <-> a = Some b.
Proof.
  unfold strictEq. destruct a as [s|].
  - rewrite String.eqb_eq. split; [now intros -> | now intros [= ->]].
  - split; discriminate.
Qed.

Lemma strictEq_false (a : option string) (b : string) :
  a <> Some b -> strictEq a b = false.
Proof.
  intros Hne. apply not_true_is_false. now rewrite strictEq_true_iff.
Qed.

(** What [indexOf] finds is an occurrence. *)
Lemma indexOf_occurs (s pat : string) (i : nat) :
  JsString.indexOf s pat = Some i -> occurs pat s.
Proof.
  revert i. induction s as [|c s IH]; intros i; simpl.
  - destruct (JsString.startsWith "" pat) eqn:E; [|discriminate].
    intros _. apply startsWith_spec in E. destruct E as [rest E].
    now exists "", rest.
  - destruct (JsString.startsWith (String c s) pat) eqn:E.
    + intros _. apply startsWith_spec in E. destruct E as [rest E].
      now exists "", rest.
    + destruct (JsString.indexOf s pat) as [j|]; [|discriminate].
      intros _. destruct (IH j eq_refl) as [pre [post ->]].
      now exists (String c pre), post.
Qed.

(** Where the pattern does not occur, [replace] returns the text as it
    is. *)
Lemma replace_absent (s pat repl : string) :
  ~ occurs pat s -> JsString.replace s pat repl = s.
Proof.
  intros Hno. unfold JsString.replace.
  destruct (JsString.indexOf s pat) as [i|] eqn:E; [|reflexivity].
  exfalso. apply Hno. now apply (indexOf_occurs s pat i).
Qed.

Lemma replace_prefix (pat rest repl : string) :
  JsString.hasDollar repl = false ->
  JsString.replace (pat ++ rest) pat repl = repl ++ rest.
Proof.
  intros Hd. now rewrite replace_no_dollar, replaceLiteral_prefix.
Qed.

(** The link to another locale from a page under the prefix of the
    current one, when the same page exists there. *)
Lemma localeLink_swap (this : Component) (k rest : string) (locale : Locale) :
  JsString.hasDollar k = false ->
  pagePath this = localePath this ++ rest ->
  lang locale <> Some (currentLang this) ->
  In (k ++ rest) (map path (routes this)) ->
  localeLink this k locale = k ++ rest.
Proof.
  intros Hd Hpage Hlang Hin. unfold localeLink.
  rewrite (strictEq_false _ _ Hlang), Hpage, (replace_prefix _ _ _ Hd).
  apply route_known in Hin. now rewrite Hin.
Qed.

(** X8: every item of the language dropdown is a leaf with a link, and
    that link is the path of the current page, the path of a known route,
    or the key of the item's locale: the switcher never links to a page
    that is not in the route table, the home of a locale apart. *)
Theorem nav_links_in_range (this : Component) (ls : Obj.t Locale) :
  locales this = Some ls ->
  1 < List.length (Obj.keys ls) ->
  exists dd its,
    nav this = Normal (userNav this ++ [dd])%list /\
    items dd = Some its /\
    Forall2 (fun k it =>
               items it = None /\
               exists l, link it = Some l /\
                         (l = pagePath this \/ In l (map path (routes this)) \/ l = k))
            (Obj.keys ls) its.
Proof.
  intros Hls Hlt.
  destruct (nav_locale_items this ls Hls Hlt) as [dd [its [Hnav [Hits HF]]]].
  exists dd, its. split; [exact Hnav|]. split; [exact Hits|].
  eapply Forall2_impl; [|exact HF].
  intros k it [locale [_ [Hlink Hleaf]]]. split; [exact Hleaf|].
  eexists. split; [exact Hlink|].
  unfold localeLink.
  destruct (strictEq (lang locale) (currentLang this)); [now left|].
  destruct (existsb _ (routes this)) eqn:Ex; simpl.
  - right. left. now apply route_known.
  - right. now right.
Qed.

Lemma nav_links_in_range_witness :
  exists dd its,
    nav (Samples.scenario [] None) = Normal (userNav (Samples.scenario [] None) ++ [dd])%list /\
    items dd = Some its /\
    Forall2 (fun k it =>
               items it = None /\
               exists l, link it = Some l /\
                         (l = pagePath (Samples.scenario [] None) \/
                          In l (map path (routes (Samples.scenario [] None))) \/ l = k))
            (Obj.keys Samples.twoLocales) its.
Proof.
  apply (nav_links_in_range (Samples.scenario [] None) Samples.twoLocales).
  - reflexivity.
  - cbv. lia.
Defined.

(** X9: for a locale whose key holds no dollar sign, the link follows the
    priority: the page itself for the locale of the current language;
    else the page path with the first occurrence of the current prefix
    replaced by the key, when that is a known route; else the key. *)
Theorem localeLink_literal_priority (this : Component) (localeKey : string)
    (locale : Locale) :
  JsString.hasDollar localeKey = false ->
  (lang locale = Some (currentLang this) -> localeLink this localeKey locale = pagePath this) /\
  (lang locale <> Some (currentLang this) ->
   In (JsString.replaceLiteral (pagePath this) (localePath this) localeKey)
      (map path (routes this)) ->
   localeLink this localeKey locale
   = JsString.replaceLiteral (pagePath this) (localePath this) localeKey) /\
  (lang locale <> Some (currentLang this) ->
   ~ In (JsString.replaceLiteral (pagePath this) (localePath this) localeKey)
        (map path (routes this)) ->
   localeLink this localeKey locale = localeKey).
Proof.
  intros Hd. exact (localeLink_priority this localeKey locale Hd).
Qed.

Lemma localeLink_literal_priority_witness :
  localeLink (Samples.scenario ["/guide/intro.html"] None) "/fr/" Samples.french = "/fr/".
Proof.
  apply (proj2 (proj2 (localeLink_literal_priority
                         (Samples.scenario ["/guide/intro.html"] None)
                         "/fr/" Samples.french eq_refl))).
  - discriminate.
  - simpl. intros [H|[]]. discriminate H.
Defined.

(** X10: switching to another locale and back returns to the page one
    started from: from a page under prefix [a], the link to the locale at
    [b] is the same page under [b]; from there, the link to the locale at
    [a] is the first page again (both pages known routes, no dollar sign
    in the keys). *)
Theorem locale_switch_round_trip (thisA thisB : Component) (a b rest : string)
    (la lb : Locale) :
  JsString.hasDollar a = false ->
  JsString.hasDollar b = false ->
  localePath thisA = a ->
  pagePath thisA = a ++ rest ->
  lang lb <> Some (currentLang thisA) ->
  In (b ++ rest) (map path (routes thisA)) ->
  localePath thisB = b ->
  pagePath thisB = localeLink thisA b lb ->
  lang la <> Some (currentLang thisB) ->
  In (a ++ rest) (map path (routes thisB)) ->
  localeLink thisA b lb = b ++ rest /\
  localeLink thisB a la = pagePath thisA.
Proof.
  intros Hda Hdb HpA HpageA HlangB HinB HpB HpageB HlangA HinA.
  assert (Hthere : localeLink thisA b lb = b ++ rest).
  { apply localeLink_swap; try assumption. now rewrite HpA. }
  split; [exact Hthere|].
  rewrite HpageA. apply localeLink_swap; try assumption.
  now rewrite HpageB, Hthere, HpB.
Qed.

Lemma locale_switch_round_trip_witness :
  localeLink (Samples.scenario ["/guide/intro.html"; "/fr/guide/intro.html"] None)
             "/fr/" Samples.french = "/fr/guide/intro.html" /\
  localeLink (Samples.scenarioFrench ["/guide/intro.html"; "/fr/guide/intro.html"])
             "/" Samples.english = "/guide/intro.html".
Proof.
  apply (locale_switch_round_trip
           (Samples.scenario ["/guide/intro.html"; "/fr/guide/intro.html"] None)
           (Samples.scenarioFrench ["/guide/intro.html"; "/fr/guide/intro.html"])
           "/" "/fr/" "guide/intro.html" Samples.english Samples.french);
    try reflexivity; try discriminate; simpl; tauto.
Defined.

(** X11: on a page whose path does not hold the prefix of the current
    locale, nothing is replaced: the entry of another language links to
    the current page itself when that is a known route, and to the key of
    its locale otherwise. *)
Theorem localeLink_prefix_absent (this : Component) (localeKey : string)
    (locale : Locale) :
  ~ occurs (localePath this) (pagePath this) ->
  lang locale <> Some (currentLang this) ->
  (In (pagePath this) (map path (routes this)) ->
     localeLink this localeKey locale = pagePath this) /\
  (~ In (pagePath this) (map path (routes this)) ->
     localeLink this localeKey locale = localeKey).
Proof.
  intros Hno Hlang. unfold localeLink.
  rewrite (strictEq_false _ _ Hlang), (replace_absent _ _ _ Hno).
  split; intros Hin.
  - apply route_known in Hin. now rewrite Hin.
  - destruct (existsb _ (routes this)) eqn:Ex; [|reflexivity].
    apply route_known in Ex. contradiction.
Qed.

Lemma occurs_indexOf (s pat : string) :
  occurs pat s -> exists i, JsString.indexOf s pat = Some i.
Proof.
  intros [pre [post ->]]. induction pre as [|c pre [i IH]].
  - exists 0. simpl append.
    destruct (pat ++ post) eqn:E; simpl; rewrite <- E, startsWith_app; reflexivity.
  - simpl.
    destruct (JsString.startsWith (String c (pre ++ pat ++ post)) pat);
      [now exists 0|].
    exists (S i). now rewrite IH.
Qed.

Lemma localeLink_prefix_absent_witness :
  localeLink Samples.outsidePage "/fr/" Samples.french = "/about.html".
Proof.
  destruct (localeLink_prefix_absent Samples.outsidePage "/fr/" Samples.french) as [H _].
  - intros Hocc. apply occurs_indexOf in Hocc. destruct Hocc as [i Hi].
    vm_compute in Hi. discriminate Hi.
  - discriminate.
  - apply H. simpl. tauto.
Defined.

(** ** Of [userLinks] *)

(** X12: every entry that [userLinks] returns carries an [items] array,
    the entry of a record without [items] an empty one; the array has one
    child for each child of the record, and the other fields are those
    that [resolveNavLinkItem] returned for the record. *)
Theorem userLinks_items_defined (resolveNavLinkItem : NavItem -> NavItem)
    (this : Component) :
  exists raw out,
    nav this = Normal raw /\
    userLinks resolveNavLinkItem this = Normal out /\
    Forall2 (fun r o =>
               text o = text (resolveNavLinkItem r) /\
               link o = link (resolveNavLinkItem r) /\
               type o = type (resolveNavLinkItem r) /\
               exists kids,
                 items o = Some kids /\
                 List.length kids =
                   match items r with Some l => List.length l | None => 0 end)
            raw out.
Proof.
  destruct (nav_returns this) as [raw Hraw].
  exists raw, (map (resolveLink resolveNavLinkItem) raw).
  split; [exact Hraw|]. split; [unfold userLinks; now rewrite Hraw|].
  clear Hraw. induction raw as [|r raw IH]; simpl; constructor; [|exact IH].
  repeat split. eexists. split; [reflexivity|].
  rewrite length_map. now destruct (items r).
Qed.

(** ** Of the template *)

Lemma nav_nil_iff (this : Component) :
  nav this = Normal [] <-> userNav this = [] /\ localeCount this <= 1.
Proof.
  destruct (le_lt_dec (localeCount this) 1) as [Hle|Hlt].
  - rewrite (nav_single this Hle). split.
    + intros [= H]. auto.
    + now intros [-> _].
  - split; [|lia]. intros H. exfalso.
    unfold localeCount in Hlt. destruct (locales this) as [ls|] eqn:Hls; [|lia].
    destruct (nav_multi this ls Hls Hlt) as [its [Hnav _]].
    rewrite Hnav in H. inversion H as [Happ].
    now destruct (userNav this).
Qed.

(** X13: the template leaves the [nav] element out exactly when there is
    nothing to show: no user link, at most one locale, and no [repo] or an
    empty one. *)
Theorem template_hidden_iff (resolveNavLinkItem : NavItem -> NavItem)
    (this : Component) :
  template resolveNavLinkItem this = Normal None <->
  userNav this = [] /\ localeCount this <= 1 /\
  (repo (themeConfig this) = None \/ repo (themeConfig this) = Some "").
Proof.
  destruct (nav_returns this) as [raw Hraw].
  pose proof (nav_nil_iff this) as Hnil. rewrite Hraw in Hnil.
  pose proof (repoLink_None_iff this) as Hnone.
  unfold template, userLinks. rewrite Hraw. simpl bind.
  rewrite length_map.
  destruct raw as [|r raw]; simpl.
  - destruct (repoLink this) as [l|] eqn:Hl.
    + rewrite (repoLink_truthy this l Hl).
      split; [discriminate|]. intros [_ [_ H]]. apply Hnone in H. discriminate H.
    + split; [|reflexivity].
      intros _. destruct (proj1 Hnil eq_refl) as [Hu Hc].
      repeat split; auto. now apply Hnone.
  - split; [discriminate|].
    intros [Hu [Hc _]]. assert (H : Normal (r :: raw) = Normal []) by now apply Hnil.
    discriminate H.
Qed.

(** X14: on a site with more than one locale the [nav] element is always
    shown, with one item more than the base list has, also when the
    configuration has no link and no [repo]. *)
Theorem template_shown_multi_locale (resolveNavLinkItem : NavItem -> NavItem)
    (this : Component) :
  1 < localeCount this ->
  exists el,
    template resolveNavLinkItem this = Normal (Some el) /\
    List.length (navItems el) = List.length (userNav this) + 1 /\
    repoAnchor el = repoLink this.
Proof.
  unfold localeCount. intros Hlt.
  destruct (locales this) as [ls|] eqn:Hls; [|lia].
  destruct (nav_multi this ls Hls Hlt) as [its [Hnav _]].
  unfold template, userLinks. rewrite Hnav. simpl bind.
  assert (Hlen : (List.length
                    (map (resolveLink resolveNavLinkItem)
                       (userNav this ++
                        [{| text := JsString.or (selectText (themeLocaleConfig this))
                                                (Some "Languages");
                            link := None; type := None; items := Some its |}])%list)
                  =? 0)%nat = false).
  { apply Nat.eqb_neq. rewrite length_map, length_app. simpl. lia. }
  rewrite Hlen. simpl negb. simpl orb.
  eexists. split; [reflexivity|]. simpl. split.
  - now rewrite !length_map, length_app.
  - destruct (repoLink this) as [l|] eqn:Hl; [|reflexivity].
    now rewrite (repoLink_truthy this l Hl).
Qed.

Lemma template_shown_multi_locale_witness :
  exists el,
    template (fun item => item) (Samples.scenario [] None) = Normal (Some el) /\
    List.length (navItems el) = List.length (userNav (Samples.scenario [] None)) + 1 /\
    repoAnchor el = repoLink (Samples.scenario [] None).
Proof.
  apply (template_shown_multi_locale (fun item => item) (Samples.scenario [] None)).
  cbv. lia.
Defined.

(** ** Of the items of the language dropdown *)

Lemma Forall2_map_keys {A B} (P : string -> B -> Prop) (o : Obj.t A) (l : list B) :
  Forall2 P (Obj.keys o) l ->
  Forall2 (fun e y => In e o /\ P (fst e) y) o l.
Proof.
  unfold Obj.keys. revert l. induction o as [|e o IH]; intros l H; simpl in H.
  - inversion H. constructor.
  - inversion H as [|k y ks ys Hk Hrest]. subst. constructor.
    + split; [now left | exact Hk].
    + eapply Forall2_impl; [|exact (IH ys Hrest)].
      simpl. intros a b [Hin Hp]. split; [now right | exact Hp].
Qed.

(** X15: the text of an item is the label that the theme gives its locale
    when there is one and it is not empty, and the [lang] of the locale
    otherwise, also when the theme has no entry for the locale. *)
Theorem nav_item_texts (this : Component) (ls : Obj.t Locale) :
  locales this = Some ls ->
  1 < List.length (Obj.keys ls) ->
  exists dd its,
    nav this = Normal (userNav this ++ [dd])%list /\
    items dd = Some its /\
    Forall2 (fun k it =>
               exists locale,
                 Obj.get ls k = Some locale /\
                 match themeLocales (themeConfig this) with
                 | Some tls =>
                     match Obj.get tls k with
                     | Some tl =>
                         match label tl with
                         | Some lb => text it = if lb =? "" then lang locale else Some lb
                         | None => text it = lang locale
                         end
                     | None => text it = lang locale
                     end
                 | None => text it = lang locale
                 end)
            (Obj.keys ls) its.
Proof.
  intros Hls Hlt.
  destruct (nav_multi this ls Hls Hlt) as [its [Hnav HF]].
  eexists. exists its. split; [exact Hnav|]. split; [reflexivity|].
  eapply Forall2_impl; [|exact HF].
  intros k it Hit. unfold localeItem in Hit.
  destruct (Obj.get ls k) as [locale|]; [|discriminate].
  exists locale. split; [reflexivity|].
  inversion Hit. subst it. simpl. clear Hit.
  unfold localeText, JsString.or, JsString.truthy.
  destruct (themeLocales (themeConfig this)) as [tls|]; simpl; [|reflexivity].
  destruct (Obj.get tls k) as [tl|]; [|reflexivity].
  destruct (label tl) as [lb|]; [|reflexivity].
  destruct (lb =? ""); reflexivity.
Qed.

Lemma nav_item_texts_witness :
  exists dd its,
    nav (Samples.scenario [] None) = Normal (userNav (Samples.scenario [] None) ++ [dd])%list /\
    items dd = Some its /\
    Forall2 (fun k it =>
               exists locale,
                 Obj.get Samples.twoLocales k = Some locale /\ text it = lang locale)
            (Obj.keys Samples.twoLocales) its.
Proof.
  apply (nav_item_texts (Samples.scenario [] None) Samples.twoLocales).
  - reflexivity.
  - cbv. lia.
Defined.

(** X16: in an object, which holds each key once, the items of the
    dropdown stand for the entries of [locales] one to one and in order:
    the item of an entry is computed from the locale of that very entry,
    and the item of a locale in the current language links to the current
    page, whatever its key. *)
Theorem nav_items_by_entry (this : Component) (ls : Obj.t Locale) :
  Obj.wf ls ->
  locales this = Some ls ->
  1 < List.length (Obj.keys ls) ->
  exists dd its,
    nav this = Normal (userNav this ++ [dd])%list /\
    items dd = Some its /\
    Forall2 (fun e it =>
               link it = Some (localeLink this (fst e) (snd e)) /\
               (lang (snd e) = Some (currentLang this) ->
                link it = Some (pagePath this)))
            ls its.
Proof.
  intros Hwf Hls Hlt.
  destruct (nav_locale_items this ls Hls Hlt) as [dd [its [Hnav [Hits HF]]]].
  exists dd, its. split; [exact Hnav|]. split; [exact Hits|].
  eapply Forall2_impl; [|exact (Forall2_map_keys _ _ _ HF)].
  intros [k locale] it [Hin [locale' [Hget [Hlink _]]]]. simpl in *.
  rewrite (Obj_get_wf ls k locale Hwf Hin) in Hget. inversion Hget. subst locale'.
  split; [exact Hlink|].
  intros Hlang. rewrite Hlink. unfold localeLink.
  apply strictEq_true_iff in Hlang. now rewrite Hlang.
Qed.

Lemma nav_items_by_entry_witness :
  exists dd its,
    nav (Samples.scenario [] None) = Normal (userNav (Samples.scenario [] None) ++ [dd])%list /\
    items dd = Some its /\
    Forall2 (fun e it =>
               link it = Some (localeLink (Samples.scenario [] None) (fst e) (snd e)) /\
               (lang (snd e) = Some (currentLang (Samples.scenario [] None)) ->
                link it = Some (pagePath (Samples.scenario [] None))))
            Samples.twoLocales its.
Proof.
  apply (nav_items_by_entry (Samples.scenario [] None) Samples.twoLocales).
  - repeat constructor; simpl; intuition discriminate.
  - reflexivity.
  - cbv. lia.
Defined.
